(** * Feature-flag service: a shallow embedding of [main.go] and its properties

    The development follows the layout of the Go file:

    - [Go]        the pieces of the Go runtime and of package [sync] that the
                  methods of the store call (errors, panics, [context.Context],
                  the built-in map with its write flag, [sync.RWMutex]);
    - the interface [FeatureFlagService];
    - [FlagStore] the concrete [featureFlagService] with its two methods;
    - the request and response structs and the two go-kit endpoints;
    - [JSON]      what [encoding/json] does when it decodes a request body
                  into one of the two request structs;
    - [Transport] the decode / endpoint / encode pipeline of go-kit's
                  [http.Server] that [main] builds around the endpoints;
    - [Concurrent] an interleaving semantics of request handlers that run the
                  two methods lock step by lock step.

    Definitions come first, the theorems about them follow. *)

From Stdlib Require Import ZArith Lia Ascii String.
From stdpp Require Import base tactics option list strings gmap.

Set Default Proof Using "Type".
Open Scope string_scope.
Open Scope list_scope.
Open Scope nat_scope.

(* ===================================================================== *)
(** ** Go runtime                                                          *)
(* ===================================================================== *)

Module Go.

(** Values of Go's [error] interface that this program can see.  The
    decoding errors are those of [encoding/json]; [ErrOther] stands for an
    error made by some other implementation of the service interface. *)
Inductive ErrorValue : Type :=
| ErrEOF                                       (* io.EOF *)
| ErrSyntax                                    (* *json.SyntaxError *)
| ErrUnmarshalType (Value : string) (Field : string)
                                               (* *json.UnmarshalTypeError *)
| ErrOther (msg : string).

(** An [error] is an interface value: [None] is Go's [nil]. *)
Definition error : Type := option ErrorValue.
Definition nilError : error := None.

(** [context.Context]: cancellation state, deadline and request-scoped
    values.  The store's methods receive one and never look at it. *)
Record Context : Type := mkContext {
  ctxErr      : error;
  ctxDeadline : option Z;
  ctxValues   : list (string * string)
}.

Definition Background : Context :=
  {| ctxErr := nilError; ctxDeadline := None; ctxValues := [] |}.

(** How a call on a state of type [S] ends: it returns a result and leaves
    a state; it panics, the deferred calls run, and it leaves a state (a
    panic in a handler is recovered by [net/http]); the runtime stops the
    process with a fatal error; or it blocks for ever on a lock. *)
Inductive outcome (S A : Type) : Type :=
| Return (a : A) (s : S)
| Panic (msg : string) (s : S)
| Fatal (msg : string)
| Block.
Arguments Return {S A} a s.
Arguments Panic {S A} msg s.
Arguments Fatal {S A} msg.
Arguments Block {S A}.

(** The two ways in which a primitive operation fails. *)
Inductive failure : Type :=
| panics (msg : string)
| throws (msg : string).

(** Stateful computations that may panic or block. *)
Definition M (S A : Type) : Type := S → outcome S A.

Definition ret {S A} (a : A) : M S A := fun s => Return a s.

Definition bind {S A B} (c : M S A) (k : A → M S B) : M S B :=
  fun s =>
    match c s with
    | Return a s' => k a s'
    | Panic msg s' => Panic msg s'
    | Fatal msg => Fatal msg
    | Block => Block
    end.

Definition panic {S A} (msg : string) : M S A := fun s => Panic msg s.

Definition fail {S A} (f : failure) : M S A :=
  fun s =>
    match f with
    | panics msg => Panic msg s
    | throws msg => Fatal msg
    end.

(** [defer d; body]: the deferred call [d] runs when [body] returns and
    also when it panics; the result (or the panic) of [body] is kept.  After
    a fatal error nothing runs. *)
Definition defer {S A} (d : M S unit) (body : M S A) : M S A :=
  fun s =>
    match body s with
    | Return a s' =>
        match d s' with
        | Return _ s'' => Return a s''
        | Panic msg s'' => Panic msg s''
        | Fatal msg => Fatal msg
        | Block => Block
        end
    | Panic msg s' =>
        match d s' with
        | Return _ s'' => Panic msg s''
        | Panic msg' s'' => Panic msg' s''
        | Fatal msg' => Fatal msg'
        | Block => Block
        end
    | Fatal msg => Fatal msg
    | Block => Block
    end.

(** *** The built-in map [map[string]bool]

    A map value is [nil] or points to a header made by [make].  The header
    carries the runtime's [hashWriting] flag: [mapassign] sets it while it
    changes the buckets, and both [mapaccess] and [mapassign] stop the
    process when they find it set.  (The runtime's check is best effort;
    here every read or write that meets a write under way is caught.) *)
Record hmap : Type := mkHmap {
  hashWriting : bool;
  buckets     : gmap string bool
}.

Definition GoMap : Type := option hmap.          (* [None] is the nil map *)

Definition make : GoMap := Some {| hashWriting := false; buckets := ∅ |}.

Definition fatalReadWrite : string := "concurrent map read and map write".
Definition fatalWrites    : string := "concurrent map writes".
Definition panicNilMap    : string := "assignment to entry in nil map".

(** [v, ok := m[key]]. *)
Definition mapaccess (m : GoMap) (key : string) : failure + (bool * bool) :=
  match m with
  | None => inr (false, false)
  | Some h =>
      if hashWriting h then inl (throws fatalReadWrite)
      else match buckets h !! key with
           | Some v => inr (v, true)
           | None => inr (false, false)
           end
  end.

(** [m[key] = value] is [mapassign]: it raises the write flag, stores, and
    lowers the flag.  The two halves are separate steps for the
    interleaving semantics. *)
Definition mapassign_begin (m : GoMap) : failure + GoMap :=
  match m with
  | None => inl (panics panicNilMap)
  | Some h =>
      if hashWriting h then inl (throws fatalWrites)
      else inr (Some {| hashWriting := true; buckets := buckets h |})
  end.

Definition mapassign_end (m : GoMap) (key : string) (value : bool) : failure + GoMap :=
  match m with
  | None => inl (panics panicNilMap)
  | Some h =>
      if hashWriting h
      then inr (Some {| hashWriting := false;
                        buckets := <[key := value]> (buckets h) |})
      else inl (throws fatalWrites)
  end.

Definition mapassign (m : GoMap) (key : string) (value : bool) : failure + GoMap :=
  match mapassign_begin m with
  | inl f => inl f
  | inr m' => mapassign_end m' key value
  end.

(** *** [sync.RWMutex]

    The lock is held by any number of readers or by one writer.  [Lock]
    has two halves: the writer first announces itself, which only one
    writer at a time can do and which makes every later [RLock] wait; it
    then waits until the readers that are inside have left.  [RLock] waits
    while a writer is announced or inside.  [RUnlock] with no reader
    inside and [Unlock] with no writer announced are fatal errors ([Unlock]
    does not tell a writer that is announced from one that is inside). *)
Inductive writerState : Type :=
| NoWriter
| WriterPending
| WriterHeld.

Record RWMutex : Type := mkRWMutex {
  readerCount : nat;
  writer      : writerState
}.

Definition zeroRWMutex : RWMutex := {| readerCount := 0; writer := NoWriter |}.

Definition fatalRUnlock : string := "sync: RUnlock of unlocked RWMutex".
Definition fatalUnlock  : string := "sync: Unlock of unlocked RWMutex".

(** [None]: the caller has to wait. *)
Definition RLock (mu : RWMutex) : option RWMutex :=
  match writer mu with
  | NoWriter => Some {| readerCount := S (readerCount mu); writer := NoWriter |}
  | _ => None
  end.

Definition Lock_announce (mu : RWMutex) : option RWMutex :=
  match writer mu with
  | NoWriter => Some {| readerCount := readerCount mu; writer := WriterPending |}
  | _ => None
  end.

Definition Lock_acquire (mu : RWMutex) : option RWMutex :=
  match writer mu, readerCount mu with
  | WriterPending, O => Some {| readerCount := 0; writer := WriterHeld |}
  | _, _ => None
  end.

Definition Lock (mu : RWMutex) : option RWMutex :=
  match Lock_announce mu with
  | Some mu' => Lock_acquire mu'
  | None => None
  end.

(** [inl]: fatal error. *)
Definition RUnlock (mu : RWMutex) : string + RWMutex :=
  match readerCount mu with
  | O => inl fatalRUnlock
  | S n => inr {| readerCount := n; writer := writer mu |}
  end.

Definition Unlock (mu : RWMutex) : string + RWMutex :=
  match writer mu with
  | NoWriter => inl fatalUnlock
  | _ => inr {| readerCount := readerCount mu; writer := NoWriter |}
  end.

End Go.

Export Go.

(** The monad operations in stdpp's notation: [x ← c; k], [c ;; k]. *)
#[export] Instance M_ret {S} : MRet (M S) := fun A a => Go.ret a.
#[export] Instance M_bind {S} : MBind (M S) := fun A B k c => Go.bind c k.

(* ===================================================================== *)
(** ** The service interface                                               *)
(* ===================================================================== *)

(** [type FeatureFlagService interface]: an implementation keeps its state
    in some type [S]; a method call may change it. *)
Class FeatureFlagService (S : Type) : Type := {
  GetFeatureFlag : Context → string → M S (bool * error);
  SetFeatureFlag : Context → string → bool → M S error
}.

(* ===================================================================== *)
(** ** The store                                                           *)
(* ===================================================================== *)

Module FlagStore.

(** [type featureFlagService struct] *)
Record featureFlagService : Type := mkService {
  flags : GoMap;
  mu    : RWMutex
}.

(** The calls on the two fields, lifted to the struct. *)
Definition mu_RLock : M featureFlagService unit :=
  fun s => match Go.RLock (mu s) with
           | Some mu' => Return () {| flags := flags s; mu := mu' |}
           | None => Block
           end.

Definition mu_RUnlock : M featureFlagService unit :=
  fun s => match Go.RUnlock (mu s) with
           | inr mu' => Return () {| flags := flags s; mu := mu' |}
           | inl msg => Fatal msg
           end.

Definition mu_Lock : M featureFlagService unit :=
  fun s => match Go.Lock (mu s) with
           | Some mu' => Return () {| flags := flags s; mu := mu' |}
           | None => Block
           end.

Definition mu_Unlock : M featureFlagService unit :=
  fun s => match Go.Unlock (mu s) with
           | inr mu' => Return () {| flags := flags s; mu := mu' |}
           | inl msg => Fatal msg
           end.

Definition flags_index (key : string) : M featureFlagService (bool * bool) :=
  fun s => match mapaccess (flags s) key with
           | inr r => Return r s
           | inl f => fail f s
           end.

Definition flags_assign (key : string) (value : bool) : M featureFlagService unit :=
  fun s => match mapassign (flags s) key value with
           | inr m' => Return () {| flags := m'; mu := mu s |}
           | inl f => fail f s
           end.

(** [func (s *featureFlagService) GetFeatureFlag(ctx, key) (bool, error)] *)
Definition GetFeatureFlag (ctx : Context) (key : string)
  : M featureFlagService (bool * error) :=
  mu_RLock ;;
  defer mu_RUnlock (
    '(val, exists_) ← flags_index key;
    if negb exists_ then mret (false, nilError)
    else mret (val, nilError)).

(** [func (s *featureFlagService) SetFeatureFlag(ctx, key, value) error] *)
Definition SetFeatureFlag (ctx : Context) (key : string) (value : bool)
  : M featureFlagService error :=
  mu_Lock ;;
  defer mu_Unlock (
    flags_assign key value ;;
    mret nilError).

(** [svc := &featureFlagService{flags: make(map[string]bool)}] in [main]. *)
Definition newService : featureFlagService :=
  {| flags := make; mu := zeroRWMutex |}.

(** The store between two calls: nobody holds the lock, no write is under
    way, and the map holds [m]. *)
Definition store (m : gmap string bool) : featureFlagService :=
  {| flags := Some {| hashWriting := false; buckets := m |};
     mu := zeroRWMutex |}.

Definition quiescent (s : featureFlagService) : Prop :=
  ∃ m, s = store m.

(** A call of one of the two methods, and a sequence of calls run one
    after the other.  [run] returns the results in call order. *)
Inductive Call : Type :=
| CallGet (ctx : Context) (key : string)
| CallSet (ctx : Context) (key : string) (value : bool).

Inductive Result : Type :=
| GetResult (val : bool) (err : error)
| SetResult (err : error).

Definition call (c : Call) : M featureFlagService Result :=
  match c with
  | CallGet ctx key =>
      '(val, err) ← GetFeatureFlag ctx key; mret (GetResult val err)
  | CallSet ctx key value =>
      err ← SetFeatureFlag ctx key value; mret (SetResult err)
  end.

Fixpoint run (cs : list Call) : M featureFlagService (list Result) :=
  match cs with
  | [] => mret []
  | c :: cs' => r ← call c; rs ← run cs'; mret (r :: rs)
  end.

(** The keys a call writes. *)
Definition writes (key : string) (c : Call) : bool :=
  match c with
  | CallGet _ _ => false
  | CallSet _ key' _ => bool_decide (key' = key)
  end.

(** The map after a sequence of calls, for the statements below. *)
Definition effect (m : gmap string bool) (c : Call) : gmap string bool :=
  match c with
  | CallGet _ _ => m
  | CallSet _ key value => <[key := value]> m
  end.

End FlagStore.

#[export] Instance featureFlagService_FeatureFlagService
  : FeatureFlagService FlagStore.featureFlagService :=
  {| GetFeatureFlag := FlagStore.GetFeatureFlag;
     SetFeatureFlag := FlagStore.SetFeatureFlag |}.

(* ===================================================================== *)
(** ** Requests, responses and endpoints                                   *)
(* ===================================================================== *)

(** [type getFeatureFlagRequest struct { Key string `json:"key"` }] *)
Record getFeatureFlagRequest : Type := mkGetRequest {
  getKey : string
}.

(** [type getFeatureFlagResponse struct { Value bool `json:"value"` }] *)
Record getFeatureFlagResponse : Type := mkGetResponse {
  getValue : bool
}.

(** [type setFeatureFlagRequest struct { Key string; Value bool }] *)
Record setFeatureFlagRequest : Type := mkSetRequest {
  setKey   : string;
  setValue : bool
}.

(** [type setFeatureFlagResponse struct { Success bool `json:"success"` }] *)
Record setFeatureFlagResponse : Type := mkSetResponse {
  Success : bool
}.

(** The dynamic values that travel as [interface{}] between the decoders,
    the endpoints and the encoder. *)
Inductive any : Type :=
| anyNil
| anyGetRequest (r : getFeatureFlagRequest)
| anySetRequest (r : setFeatureFlagRequest)
| anyGetResponse (r : getFeatureFlagResponse)
| anySetResponse (r : setFeatureFlagResponse).

Definition panicConversion : string := "interface conversion".

(** [request.(getFeatureFlagRequest)]: a type assertion without the comma-ok
    form panics when the dynamic type is another one. *)
Definition assertGetRequest {S} (request : any) : M S getFeatureFlagRequest :=
  match request with
  | anyGetRequest req => mret req
  | _ => panic panicConversion
  end.

(** [request.(setFeatureFlagRequest)] *)
Definition assertSetRequest {S} (request : any) : M S setFeatureFlagRequest :=
  match request with
  | anySetRequest req => mret req
  | _ => panic panicConversion
  end.

(** go-kit's [endpoint.Endpoint]. *)
Definition Endpoint (S : Type) : Type := Context → any → M S (any * error).

(** [func makeGetFeatureFlagEndpoint(svc FeatureFlagService) endpoint.Endpoint] *)
Definition makeGetFeatureFlagEndpoint {S} (svc : FeatureFlagService S) : Endpoint S :=
  fun ctx request =>
    req ← assertGetRequest request;
    '(val, _) ← GetFeatureFlag ctx (getKey req);
    mret (anyGetResponse {| getValue := val |}, nilError).

(** [func makeSetFeatureFlagEndpoint(svc FeatureFlagService) endpoint.Endpoint] *)
Definition makeSetFeatureFlagEndpoint {S} (svc : FeatureFlagService S) : Endpoint S :=
  fun ctx request =>
    req ← assertSetRequest request;
    SetFeatureFlag ctx (setKey req) (setValue req) ;;
    mret (anySetResponse {| Success := true |}, nilError).

(* ===================================================================== *)
(** ** encoding/json                                                       *)
(* ===================================================================== *)

Module JSON.

(** A JSON text that the decoder's scanner has accepted.  Member names and
    strings are the unquoted bytes; a number keeps its literal. *)
#[warnings="-register-all"]
Inductive Value : Type :=
| Null
| Bool (b : bool)
| Number (literal : string)
| String (s : string)
| Array (elements : list Value)
| Object (members : list (string * Value)).

(** What [json.NewDecoder(r.Body).Decode] finds in the body: nothing at
    all, bytes that are not JSON, or a JSON value (whatever follows the
    first value stays unread). *)
Inductive Body : Type :=
| BodyEmpty
| BodyInvalid
| BodyJSON (v : Value).

(** The word by which [UnmarshalTypeError] names the offending value. *)
Definition describe (v : Value) : string :=
  match v with
  | Null => "null"
  | Bool _ => "bool"
  | Number _ => "number"
  | String _ => "string"
  | Array _ => "array"
  | Object _ => "object"
  end.

(** [d.saveError]: the first error is kept, decoding goes on. *)
Definition saveError (saved err : error) : error :=
  match saved with
  | Some _ => saved
  | None => err
  end.

(** Storing a JSON value into a Go [string]: a string is stored, [null]
    leaves the field as it is, everything else is a type error. *)
Definition storeString (field : string) (v : Value) (old : string) : string * error :=
  match v with
  | String s => (s, nilError)
  | Null => (old, nilError)
  | _ => (old, Some (ErrUnmarshalType (describe v) field))
  end.

(** Storing a JSON value into a Go [bool]. *)
Definition storeBool (field : string) (v : Value) (old : bool) : bool * error :=
  match v with
  | Bool b => (b, nilError)
  | Null => (old, nilError)
  | _ => (old, Some (ErrUnmarshalType (describe v) field))
  end.

(** [foldName]: the key under which a member name is looked up when no
    field has exactly that name.  ASCII letters go to upper case; so do the
    two other runes that fold to an ASCII letter, U+212A KELVIN SIGN (bytes
    E2 84 AA) and U+017F LONG S (bytes C5 BF).  Go folds every other rune
    to another rune outside ASCII; here its bytes stay, which makes no
    difference when the result is compared with the fold of an ASCII field
    name. *)
Definition isLower (c : Ascii.ascii) : bool :=
  (97 <=? Ascii.nat_of_ascii c)%nat && (Ascii.nat_of_ascii c <=? 122)%nat.

Definition toUpper (c : Ascii.ascii) : Ascii.ascii :=
  if isLower c then Ascii.ascii_of_nat (Ascii.nat_of_ascii c - 32) else c.

Definition isByte (n : nat) (c : Ascii.ascii) : bool :=
  (Ascii.nat_of_ascii c =? n)%nat.

Fixpoint foldName (s : string) : string :=
  match s with
  | EmptyString => EmptyString
  | String.String c rest =>
      let plain := String.String (toUpper c) (foldName rest) in
      match rest with
      | String.String c1 rest1 =>
          if isByte 197 c && isByte 191 c1
          then String.String "S"%char (foldName rest1)
          else match rest1 with
               | String.String c2 rest2 =>
                   if isByte 226 c && isByte 132 c1 && isByte 170 c2
                   then String.String "K"%char (foldName rest2)
                   else plain
               | EmptyString => plain
               end
      | EmptyString => plain
      end
  end.

(** The field that receives the member called [name]: the field with
    exactly that name, else the first field with the same fold. *)
Definition lookupField (fields : list string) (name : string) : option string :=
  match List.find (String.eqb name) fields with
  | Some f => Some f
  | None => List.find (fun f => String.eqb (foldName f) (foldName name)) fields
  end.

(** Decoding the members of an object into a [getFeatureFlagRequest], one
    after the other; members that name no field are skipped. *)
Definition getRequestFields : list string := ["key"].

Definition getRequestMember (acc : getFeatureFlagRequest * error) (member : string * Value)
  : getFeatureFlagRequest * error :=
  let '(req, saved) := acc in
  let '(name, v) := member in
  match lookupField getRequestFields name with
  | Some _ =>
      let '(k, err) := storeString "key" v (getKey req) in
      ({| getKey := k |}, saveError saved err)
  | None => (req, saved)
  end.

(** The same for a [setFeatureFlagRequest]. *)
Definition setRequestFields : list string := ["key"; "value"].

Definition setRequestMember (acc : setFeatureFlagRequest * error) (member : string * Value)
  : setFeatureFlagRequest * error :=
  let '(req, saved) := acc in
  let '(name, v) := member in
  match lookupField setRequestFields name with
  | Some f =>
      if String.eqb f "key" then
        let '(k, err) := storeString "key" v (setKey req) in
        ({| setKey := k; setValue := setValue req |}, saveError saved err)
      else
        let '(b, err) := storeBool "value" v (setValue req) in
        ({| setKey := setKey req; setValue := b |}, saveError saved err)
  | None => (req, saved)
  end.

(** [Unmarshal] of a scanned value into a struct: an object is decoded
    member by member, [null] changes nothing, any other value is a type
    error. *)
Definition unmarshalInto {R} (member : R * error → string * Value → R * error)
    (v : Value) (request : R) : R * error :=
  match v with
  | Object members => foldl member (request, nilError) members
  | Null => (request, nilError)
  | _ => (request, Some (ErrUnmarshalType (describe v) ""))
  end.

(** [Decode] on a fresh decoder: [io.EOF] for an empty body, a syntax error
    for bytes that are not JSON. *)
Definition Decode {R} (member : R * error → string * Value → R * error)
    (body : Body) (request : R) : R * error :=
  match body with
  | BodyEmpty => (request, Some ErrEOF)
  | BodyInvalid => (request, Some ErrSyntax)
  | BodyJSON v => unmarshalInto member v request
  end.

(** [Encode] of the structs of this program, as the value whose text is
    written. *)
Definition Encode (response : any) : Value :=
  match response with
  | anyNil => Null
  | anyGetRequest r => Object [("key", String (getKey r))]
  | anySetRequest r => Object [("key", String (setKey r)); ("value", Bool (setValue r))]
  | anyGetResponse r => Object [("value", Bool (getValue r))]
  | anySetResponse r => Object [("success", Bool (Success r))]
  end.

(** A body "omits the field [field]": it is an object none of whose
    members is stored into that field. *)
Definition omits (fields : list string) (field : string) (members : list (string * Value)) : Prop :=
  ∀ name v, (name, v) ∈ members → lookupField fields name ≠ Some field.

(** A value that is neither [true] nor [false]. *)
Definition nonBoolean (v : Value) : Prop :=
  ∀ b, v ≠ Bool b.

End JSON.

(* ===================================================================== *)
(** ** Transport                                                           *)
(* ===================================================================== *)

Module Transport.

(** The part of [*http.Request] that the service reads. *)
Record Request : Type := mkRequest {
  Path : string;
  Body : JSON.Body
}.

(** What has been written to the [http.ResponseWriter] when the handler
    returns: a status code with the encoded response, or a status code
    with the text of an error. *)
Inductive Response : Type :=
| Written (code : Z) (body : JSON.Value)
| Failed (code : Z) (err : ErrorValue).

(** [func decodeGetFeatureFlagRequest(_ context.Context, r *http.Request)] *)
Definition decodeGetFeatureFlagRequest (_ : Context) (r : Request) : any * error :=
  let request := {| getKey := "" |} in
  let '(request, err) := JSON.Decode JSON.getRequestMember (Body r) request in
  match err with
  | Some e => (anyNil, Some e)
  | None => (anyGetRequest request, nilError)
  end.

(** [func decodeSetFeatureFlagRequest(_ context.Context, r *http.Request)] *)
Definition decodeSetFeatureFlagRequest (_ : Context) (r : Request) : any * error :=
  let request := {| setKey := ""; setValue := false |} in
  let '(request, err) := JSON.Decode JSON.setRequestMember (Body r) request in
  match err with
  | Some e => (anyNil, Some e)
  | None => (anySetRequest request, nilError)
  end.

(** [func encodeResponse(_ context.Context, w http.ResponseWriter, response interface{}) error] *)
Definition encodeResponse (_ : Context) (response : any) : Response * error :=
  (Written 200 (JSON.Encode response), nilError).

(** go-kit's [http.Server]: the endpoint with its decoder and encoder. *)
Record Server (S : Type) : Type := NewServer {
  e   : Endpoint S;
  dec : Context → Request → any * error;
  enc : Context → any → Response * error
}.
Arguments NewServer {S} e dec enc.
Arguments e {S}.
Arguments dec {S}.
Arguments enc {S}.

(** go-kit's default error encoder answers 500 with the error's text. *)
Definition errorEncoder (err : ErrorValue) : Response := Failed 500 err.

(** [func (s Server) ServeHTTP(w, r)]: decode; on an error answer it and
    return; call the endpoint; on an error answer it and return; encode. *)
Definition ServeHTTP {S} (s : Server S) (ctx : Context) (r : Request) : M S Response :=
  let '(request, err) := dec s ctx r in
  match err with
  | Some err => mret (errorEncoder err)
  | None =>
      '(response, err) ← e s ctx request;
      match err with
      | Some err => mret (errorEncoder err)
      | None =>
          let '(w, err) := enc s ctx response in
          match err with
          | Some err => mret (errorEncoder err)
          | None => mret w
          end
      end
  end.

(** The two handlers that [main] builds and registers under [/get] and
    [/set]. *)
Definition getFeatureFlagHandler {S} (svc : FeatureFlagService S) : Server S :=
  NewServer (makeGetFeatureFlagEndpoint svc) decodeGetFeatureFlagRequest encodeResponse.

Definition setFeatureFlagHandler {S} (svc : FeatureFlagService S) : Server S :=
  NewServer (makeSetFeatureFlagEndpoint svc) decodeSetFeatureFlagRequest encodeResponse.

(** [http.Handle("/get", ...)] and [http.Handle("/set", ...)] on the default
    mux: a pattern without a trailing slash matches that path only, any
    other path is answered 404. *)
Definition notFound : Response := Failed 404 (ErrOther "404 page not found").

Definition DefaultServeMux {S} (svc : FeatureFlagService S)
    (ctx : Context) (r : Request) : M S Response :=
  if String.eqb (Path r) "/get" then ServeHTTP (getFeatureFlagHandler svc) ctx r
  else if String.eqb (Path r) "/set" then ServeHTTP (setFeatureFlagHandler svc) ctx r
  else mret notFound.

(** Two requests of the specification's scenario. *)
Definition getBeta : Request :=
  {| Path := "/get";
     Body := JSON.BodyJSON (JSON.Object [("key", JSON.String "beta")]) |}.

Definition setBetaTrue : Request :=
  {| Path := "/set";
     Body := JSON.BodyJSON (JSON.Object [("key", JSON.String "beta");
                                         ("value", JSON.Bool true)]) |}.

End Transport.

(** An implementation of the interface that records every call before it
    hands it to the store: the log tells whether the store was invoked. *)
Module Spy.

Definition state : Type := FlagStore.featureFlagService * list FlagStore.Call.

Definition lift {A} (c : FlagStore.Call) (m : M FlagStore.featureFlagService A) : M state A :=
  fun '(s, log) =>
    match m s with
    | Return a s' => Return a (s', log ++ [c])
    | Panic msg s' => Panic msg (s', log ++ [c])
    | Fatal msg => Fatal msg
    | Block => Block
    end.

#[export] Instance service : FeatureFlagService state :=
  {| GetFeatureFlag ctx key :=
       lift (FlagStore.CallGet ctx key) (FlagStore.GetFeatureFlag ctx key);
     SetFeatureFlag ctx key value :=
       lift (FlagStore.CallSet ctx key value) (FlagStore.SetFeatureFlag ctx key value) |}.

End Spy.

(* ===================================================================== *)
(** ** Concurrent request handlers                                         *)
(* ===================================================================== *)

Module Concurrent.
Import FlagStore.

(** The two halves of [s.mu.Lock()], lifted to the struct. *)
Definition mu_Lock_announce : M featureFlagService unit :=
  fun s => match Go.Lock_announce (mu s) with
           | Some mu' => Return () {| flags := flags s; mu := mu' |}
           | None => Block
           end.

Definition mu_Lock_acquire : M featureFlagService unit :=
  fun s => match Go.Lock_acquire (mu s) with
           | Some mu' => Return () {| flags := flags s; mu := mu' |}
           | None => Block
           end.

(** The two halves of [s.flags[key] = value], lifted to the struct. *)
Definition flags_assign_begin : M featureFlagService unit :=
  fun s => match mapassign_begin (flags s) with
           | inr m' => Return () {| flags := m'; mu := mu s |}
           | inl f => fail f s
           end.

Definition flags_assign_end (key : string) (value : bool) : M featureFlagService unit :=
  fun s => match mapassign_end (flags s) key value with
           | inr m' => Return () {| flags := m'; mu := mu s |}
           | inl f => fail f s
           end.

(** Where a handler stands in the method it runs.  Every lock call (each
    half of [Lock]) and every map operation (each half of the assignment)
    is one step of its own. *)
Inductive pc : Type :=
| GetEntry (key : string)                     (* before [s.mu.RLock()] *)
| GetLocked (key : string)                    (* before [s.flags[key]] *)
| GetLoaded (val exists_ : bool)              (* before the deferred [RUnlock] *)
| GetPanicking (msg : string)                 (* unwinding, [RUnlock] pending *)
| SetEntry (key : string) (value : bool)      (* before [s.mu.Lock()] *)
| SetPending (key : string) (value : bool)    (* in [Lock], announced *)
| SetLocked (key : string) (value : bool)     (* before the map assignment *)
| SetStoring (key : string) (value : bool)    (* inside the map assignment *)
| SetStored                                   (* before the deferred [Unlock] *)
| SetPanicking (msg : string)                 (* unwinding, [Unlock] pending *)
| Returned (r : Result)
| Panicked (msg : string)
| Thrown (msg : string).                      (* fatal error: the process is dead *)

(** What becomes of a handler when the operation it was about to do ends
    as [o]: it goes on at [next], it unwinds at [unwind], it dies, or (for
    [None]) it waits. *)
Definition after {A} (c : M featureFlagService A)
    (next : A → pc) (unwind : string → pc) (s : featureFlagService)
  : option (pc * featureFlagService) :=
  match c s with
  | Return a s' => Some (next a, s')
  | Panic msg s' => Some (unwind msg, s')
  | Fatal msg => Some (Thrown msg, s)
  | Block => None
  end.

(** One step of a handler on the shared store; [None] when the handler
    waits for the lock or has finished. *)
Definition thread_step (p : pc) : featureFlagService → option (pc * featureFlagService) :=
  match p with
  | GetEntry key =>
      after mu_RLock (fun _ => GetLocked key) Panicked
  | GetLocked key =>
      after (flags_index key) (fun '(val, exists_) => GetLoaded val exists_)
        GetPanicking
  | GetLoaded val exists_ =>
      after mu_RUnlock
        (fun _ => Returned (GetResult (if negb exists_ then false else val) nilError))
        Panicked
  | GetPanicking msg =>
      after mu_RUnlock (fun _ => Panicked msg) Panicked
  | SetEntry key value =>
      after mu_Lock_announce (fun _ => SetPending key value) Panicked
  | SetPending key value =>
      after mu_Lock_acquire (fun _ => SetLocked key value) Panicked
  | SetLocked key value =>
      after flags_assign_begin (fun _ => SetStoring key value) SetPanicking
  | SetStoring key value =>
      after (flags_assign_end key value) (fun _ => SetStored) SetPanicking
  | SetStored =>
      after mu_Unlock (fun _ => Returned (SetResult nilError)) Panicked
  | SetPanicking msg =>
      after mu_Unlock (fun _ => Panicked msg) Panicked
  | Returned _ | Panicked _ | Thrown _ => fun _ => None
  end.

(** A handler that runs alone, for at most [n] steps. *)
Fixpoint thread_run (n : nat) (p : pc) (s : featureFlagService)
  : pc * featureFlagService :=
  match n with
  | O => (p, s)
  | S n' =>
      match thread_step p s with
      | Some (p', s') => thread_run n' p' s'
      | None => (p, s)
      end
  end.

(** How a handler that has stopped reads as the outcome of a call. *)
Definition outcome_of (ps : pc * featureFlagService)
  : outcome featureFlagService Result :=
  match ps with
  | (Returned r, s) => Return r s
  | (Panicked msg, s) => Panic msg s
  | (Thrown msg, _) => Fatal msg
  | _ => Block
  end.

(** The handler that serves a call. *)
Definition entry (c : Call) : pc :=
  match c with
  | CallGet _ key => GetEntry key
  | CallSet _ key value => SetEntry key value
  end.

(** The process: the one store and the handlers of the requests that have
    arrived so far. *)
Record world : Type := mkWorld {
  svc     : featureFlagService;
  threads : list pc
}.

(** [main] makes the store before it serves any request. *)
Definition init : world := {| svc := newService; threads := [] |}.

(** The handlers inside the read section, announced in [Lock], inside the
    write section, in the middle of a map assignment, and those that have
    panicked or died. *)
Definition reading (p : pc) : bool :=
  match p with
  | GetLocked _ | GetLoaded _ _ | GetPanicking _ => true
  | _ => false
  end.

Definition pending (p : pc) : bool :=
  match p with
  | SetPending _ _ => true
  | _ => false
  end.

Definition writing (p : pc) : bool :=
  match p with
  | SetLocked _ _ | SetStoring _ _ | SetStored | SetPanicking _ => true
  | _ => false
  end.

Definition storing (p : pc) : bool :=
  match p with
  | SetStoring _ _ => true
  | _ => false
  end.

Definition panicking (p : pc) : bool :=
  match p with
  | GetPanicking _ | SetPanicking _ | Panicked _ | Thrown _ => true
  | _ => false
  end.

Definition thrown (p : pc) : bool :=
  match p with
  | Thrown _ => true
  | _ => false
  end.

Definition bit (b : bool) : nat := if b then 1 else 0.

(** How many handlers satisfy [f]. *)
Fixpoint tally (f : pc → bool) (l : list pc) : nat :=
  match l with
  | [] => 0
  | p :: l' => bit (f p) + tally f l'
  end.

(** The process runs as long as no handler has met a fatal error. *)
Definition alive (w : world) : Prop := tally thrown (threads w) = 0.

(** A request arrives and gets a handler, or some handler takes a step. *)
Inductive step : world → world → Prop :=
| step_request w c :
    alive w →
    step w {| svc := svc w; threads := threads w ++ [entry c] |}
| step_handler w i p p' s' :
    alive w →
    threads w !! i = Some p →
    thread_step p (svc w) = Some (p', s') →
    step w {| svc := s'; threads := <[i := p']> (threads w) |}.

Inductive reachable : world → Prop :=
| reachable_init : reachable init
| reachable_step w w' : reachable w → step w w' → reachable w'.

Definition isPending (ws : writerState) : bool :=
  match ws with WriterPending => true | _ => false end.

Definition isHeld (ws : writerState) : bool :=
  match ws with WriterHeld => true | _ => false end.

(** What holds of the process at every moment. *)
Record invariant (w : world) : Prop := mkInvariant {
  inv_readers : readerCount (mu (svc w)) = tally reading (threads w);
  inv_pending : bit (isPending (writer (mu (svc w)))) = tally pending (threads w);
  inv_writer  : bit (isHeld (writer (mu (svc w)))) = tally writing (threads w);
  inv_exclusive : writer (mu (svc w)) = WriterHeld → tally reading (threads w) = 0;
  inv_flags   : ∃ h, flags (svc w) = Some h
                     ∧ bit (hashWriting h) = tally storing (threads w);
  inv_sound   : tally panicking (threads w) = 0
}.

End Concurrent.

(** An implementation of the interface whose calls always report an
    error: a backend that is down. *)
Module Failing.

Definition backendDown : ErrorValue := ErrOther "backend down".

#[export] Instance service : FeatureFlagService unit :=
  {| GetFeatureFlag _ _ := mret (true, Some backendDown);
     SetFeatureFlag _ _ _ := mret (Some backendDown) |}.

End Failing.

(* ===================================================================== *)
(** ** What a body and a history amount to                                 *)
(* ===================================================================== *)

(** The bodies that the two decoders accept and the request they read from
    them, told from the members alone. *)
Module Decoded.
Import JSON.

Definition isStringOrNull (v : Value) : bool :=
  match v with
  | String _ | Null => true
  | _ => false
  end.

Definition isBoolOrNull (v : Value) : bool :=
  match v with
  | Bool _ | Null => true
  | _ => false
  end.

(** A member of a "get" body is acceptable when it names no field or
    carries a string or [null]. *)
Definition getMemberOK (member : string * Value) : bool :=
  match lookupField getRequestFields member.1 with
  | Some _ => isStringOrNull member.2
  | None => true
  end.

(** A member of a "set" body is acceptable when it names no field, goes to
    [Key] with a string or [null], or goes to [Value] with a boolean or
    [null]. *)
Definition setMemberOK (member : string * Value) : bool :=
  match lookupField setRequestFields member.1 with
  | Some f =>
      if String.eqb f "key" then isStringOrNull member.2
      else isBoolOrNull member.2
  | None => true
  end.

Definition bodyOK (memberOK : string * Value → bool) (body : Body) : bool :=
  match body with
  | BodyJSON Null => true
  | BodyJSON (Object members) => forallb memberOK members
  | _ => false
  end.

Definition membersOf (body : Body) : list (string * Value) :=
  match body with
  | BodyJSON (Object members) => members
  | _ => []
  end.

(** The string that the members leave in the field [field]: that of the
    last member that goes to the field and carries a string, [old] when
    there is none. *)
Definition stringOf (fields : list string) (field : string)
    (members : list (string * Value)) (old : string) : string :=
  foldl (fun acc member =>
           match lookupField fields member.1, member.2 with
           | Some f, String s => if String.eqb f field then s else acc
           | _, _ => acc
           end) old members.

(** The same for a boolean field. *)
Definition boolOf (fields : list string) (field : string)
    (members : list (string * Value)) (old : bool) : bool :=
  foldl (fun acc member =>
           match lookupField fields member.1, member.2 with
           | Some f, Bool b => if String.eqb f field then b else acc
           | _, _ => acc
           end) old members.

End Decoded.

(** The value that a history of calls leaves under [key]: that of the last
    [SetFeatureFlag] of the key, if there is one. *)
Definition lastWrite (key : string) (cs : list FlagStore.Call) : option bool :=
  foldl (fun acc c =>
           match c with
           | FlagStore.CallSet _ key' value =>
               if bool_decide (key' = key) then Some value else acc
           | FlagStore.CallGet _ _ => acc
           end) None cs.

(** The handlers that have returned, and the steps that a handler still
    has to take before it returns. *)
Definition finished (p : Concurrent.pc) : bool :=
  match p with
  | Concurrent.Returned _ => true
  | _ => false
  end.

Definition remaining (p : Concurrent.pc) : nat :=
  match p with
  | Concurrent.GetEntry _ => 3
  | Concurrent.GetLocked _ => 2
  | Concurrent.GetLoaded _ _ => 1
  | Concurrent.SetEntry _ _ => 5
  | Concurrent.SetPending _ _ => 4
  | Concurrent.SetLocked _ _ => 3
  | Concurrent.SetStoring _ _ => 2
  | Concurrent.SetStored => 1
  | _ => 0
  end.

Definition work (l : list Concurrent.pc) : nat :=
  foldr (fun p n => remaining p + n) 0 l.

(** Steps of handlers only: no further request arrives. *)
Inductive drains : Concurrent.world → Concurrent.world → Prop :=
| drains_done w : drains w w
| drains_step w i p p' s' w' :
    Concurrent.alive w →
    Concurrent.threads w !! i = Some p →
    Concurrent.thread_step p (Concurrent.svc w) = Some (p', s') →
    drains {| Concurrent.svc := s';
              Concurrent.threads := <[i := p']> (Concurrent.threads w) |} w' →
    drains w w'.

(* ===================================================================== *)
(** * Properties                                                           *)
(* ===================================================================== *)

(** ** The store, one call after the other *)

Section Sequential.
Import FlagStore.

Implicit Types (m : gmap string bool) (ctx : Context) (key : string).

(** On a store at rest a read returns the stored value, [false] for a key
    that is not in the map, and leaves the store as it was. *)
Lemma get_store ctx key m :
  GetFeatureFlag ctx key (store m)
  = Return (default false (m !! key), nilError) (store m).
Proof.
  unfold GetFeatureFlag, store, mbind, M_bind, Go.bind, defer.
  unfold mu_RLock, flags_index, mapaccess; cbn.
  destruct (m !! key) as [v|]; reflexivity.
Qed.

(** On a store at rest a write returns [nil] and leaves the store at rest
    with the one entry replaced. *)
Lemma set_store ctx key value m :
  SetFeatureFlag ctx key value (store m)
  = Return nilError (store (<[key := value]> m)).
Proof. reflexivity. Qed.

Lemma call_store c m :
  ∃ r, call c (store m) = Return r (store (effect m c)).
Proof.
  destruct c as [ctx key | ctx key value]; cbn [call effect].
  - eexists. unfold mbind, M_bind, Go.bind. rewrite get_store. reflexivity.
  - eexists. unfold mbind, M_bind, Go.bind. rewrite set_store. reflexivity.
Qed.

(** A sequence of calls never blocks and never panics. *)
Lemma run_store cs m :
  ∃ rs, run cs (store m) = Return rs (store (foldl effect m cs)).
Proof.
  revert m. induction cs as [|c cs IH]; intros m.
  - exists []. reflexivity.
  - destruct (call_store c m) as [r Hr].
    destruct (IH (effect m c)) as [rs Hrs].
    exists (r :: rs). cbn [run foldl].
    unfold mbind, M_bind, Go.bind at 1. rewrite Hr.
    unfold Go.bind at 1. rewrite Hrs. reflexivity.
Qed.

(** Calls that do not write [key] leave its entry alone. *)
Lemma effect_other key c m :
  writes key c = false → effect m c !! key = m !! key.
Proof.
  destruct c as [ctx' k' | ctx' k' v']; cbn; [done|].
  intros H. apply bool_decide_eq_false in H.
  by rewrite lookup_insert_ne.
Qed.

Lemma foldl_effect_other key cs m :
  Forall (fun c => writes key c = false) cs →
  foldl effect m cs !! key = m !! key.
Proof.
  intros H. revert m. induction H as [|c cs Hc _ IH]; intros m; [done|].
  cbn [foldl]. rewrite IH. by apply effect_other.
Qed.

Lemma newService_store : newService = store ∅.
Proof. reflexivity. Qed.

(** The zero value of the struct, which [main] never uses, has a nil map:
    reads answer [false], a write panics and the deferred [Unlock] runs. *)
Example get_on_nil_map ctx key :
  GetFeatureFlag ctx key {| flags := None; mu := zeroRWMutex |}
  = Return (false, nilError) {| flags := None; mu := zeroRWMutex |}.
Proof. reflexivity. Qed.

Example set_on_nil_map ctx key value :
  SetFeatureFlag ctx key value {| flags := None; mu := zeroRWMutex |}
  = Panic panicNilMap {| flags := None; mu := zeroRWMutex |}.
Proof. reflexivity. Qed.

Lemma quiescent_newService : quiescent newService.
Proof. by exists ∅. Qed.

Lemma quiescent_run cs s :
  quiescent s → ∃ rs s', run cs s = Return rs s' ∧ quiescent s'.
Proof.
  intros [m ->]. destruct (run_store cs m) as [rs H].
  exists rs, (store (foldl effect m cs)). split; [done|]. by eexists.
Qed.

End Sequential.

Section StoreClaims.
Import FlagStore.

Implicit Types (m : gmap string bool) (ctx : Context) (key : string).

(** C1 (default-false).  Start from the store that [main] creates and run any
    sequence of calls in which [key] is never passed to [SetFeatureFlag] (the
    empty sequence is the freshly created store).  The sequence runs to its
    end, and a [GetFeatureFlag] of [key] after it returns [false] together
    with a nil error: the absence of the key is not an error. *)
Theorem default_false (cs : list Call) ctx key :
  Forall (fun c => writes key c = false) cs →
  ∃ rs s, run cs newService = Return rs s
          ∧ GetFeatureFlag ctx key s = Return (false, nilError) s.
Proof.
  intros Hcs. rewrite newService_store.
  destruct (run_store cs ∅) as [rs Hrun].
  exists rs, (store (foldl effect ∅ cs)). split; [exact Hrun|].
  rewrite get_store, (foldl_effect_other key cs ∅ Hcs).
  by rewrite lookup_empty.
Qed.

Lemma default_false_witness :
  ∃ rs s,
    run [CallSet Background "beta" true; CallGet Background "beta"] newService
    = Return rs s
    ∧ GetFeatureFlag Background "alpha" s = Return (false, nilError) s.
Proof.
  apply (default_false
           [CallSet Background "beta" true; CallGet Background "beta"]
           Background "alpha").
  repeat constructor.
Defined.

(** C2 (write-then-read).  After [SetFeatureFlag key value] has returned, and
    after any further calls none of which is a [SetFeatureFlag] of the same
    key, [GetFeatureFlag key] returns exactly [value]. *)
Theorem write_then_read m ctx ctx' key value (cs : list Call) :
  Forall (fun c => writes key c = false) cs →
  ∃ s1 rs s2,
    SetFeatureFlag ctx key value (store m) = Return nilError s1
    ∧ run cs s1 = Return rs s2
    ∧ GetFeatureFlag ctx' key s2 = Return (value, nilError) s2.
Proof.
  intros Hcs.
  destruct (run_store cs (<[key := value]> m)) as [rs Hrun].
  exists (store (<[key := value]> m)), rs,
         (store (foldl effect (<[key := value]> m) cs)).
  split; [apply set_store|]. split; [exact Hrun|].
  rewrite get_store, (foldl_effect_other key cs _ Hcs).
  by rewrite lookup_insert_eq.
Qed.

Lemma write_then_read_witness :
  ∃ s1 rs s2,
    SetFeatureFlag Background "beta" true (store ∅) = Return nilError s1
    ∧ run [CallSet Background "alpha" false; CallGet Background "beta"] s1
      = Return rs s2
    ∧ GetFeatureFlag Background "beta" s2 = Return (true, nilError) s2.
Proof.
  apply (write_then_read ∅ Background Background "beta" true
           [CallSet Background "alpha" false; CallGet Background "beta"]).
  repeat constructor.
Defined.

(** C3 (last write wins).  [SetFeatureFlag key v1], then
    [SetFeatureFlag key v2], then [GetFeatureFlag key]: both writes report
    success, the read yields [v2], and the store holds [v2] under [key]
    whatever it held before. *)
Theorem last_write_wins m ctx1 ctx2 ctx3 key (v1 v2 : bool) :
  run [CallSet ctx1 key v1; CallSet ctx2 key v2; CallGet ctx3 key] (store m)
  = Return [SetResult nilError; SetResult nilError; GetResult v2 nilError]
           (store (<[key := v2]> m)).
Proof.
  cbn [run call]. unfold mbind, M_bind, Go.bind, mret, M_ret, Go.ret.
  rewrite !set_store, get_store, lookup_insert_eq, insert_insert_eq.
  reflexivity.
Qed.

(** C4 (key independence).  For distinct keys [k1] and [k2], any value and
    any store, [GetFeatureFlag k2] returns after [SetFeatureFlag k1 value]
    what it returns before it. *)
Theorem key_independence m ctx ctx' (k1 k2 : string) (value : bool) :
  k1 ≠ k2 →
  ∃ r s1,
    GetFeatureFlag ctx' k2 (store m) = Return r (store m)
    ∧ SetFeatureFlag ctx k1 value (store m) = Return nilError s1
    ∧ GetFeatureFlag ctx' k2 s1 = Return r s1.
Proof.
  intros Hne.
  exists (default false (m !! k2), nilError), (store (<[k1 := value]> m)).
  split; [apply get_store|]. split; [apply set_store|].
  by rewrite get_store, lookup_insert_ne.
Qed.

Lemma key_independence_witness :
  ∃ r s1,
    GetFeatureFlag Background "beta" (store {["beta" := true]})
    = Return r (store {["beta" := true]})
    ∧ SetFeatureFlag Background "alpha" false (store {["beta" := true]})
      = Return nilError s1
    ∧ GetFeatureFlag Background "beta" s1 = Return r s1.
Proof.
  apply (key_independence {["beta" := true]} Background Background
           "alpha" "beta" false).
  discriminate.
Defined.

(** C5 (pure read).  On every store [GetFeatureFlag] returns and leaves the
    struct, the map in it included, exactly as it was, so that a later
    [GetFeatureFlag] of any key answers as it would have before the call.
    Moreover, in whatever state the struct is (readers inside, a writer
    announced or inside, an assignment under way, a nil map) the call changes
    nothing: it returns and leaves that very state, or it never returns
    because it waits for a writer or meets the runtime's fatal error. *)
Theorem get_is_pure_read ctx key :
  (∀ m, ∃ r s',
     GetFeatureFlag ctx key (store m) = Return r s'
     ∧ s' = store m
     ∧ ∀ ctx' key', GetFeatureFlag ctx' key' s' = GetFeatureFlag ctx' key' (store m))
  ∧ (∀ s, (∃ r, GetFeatureFlag ctx key s = Return r s)
          ∨ GetFeatureFlag ctx key s = Fatal fatalReadWrite
          ∨ GetFeatureFlag ctx key s = Block).
Proof.
  split.
  - intros m. eexists _, _. split; [apply get_store|]. by split.
  - intros [fl [n w]].
    unfold GetFeatureFlag, mbind, M_bind, Go.bind, defer.
    unfold mu_RLock, mu_RUnlock, flags_index, Go.RLock, Go.RUnlock.
    cbn [mu flags writer readerCount].
    destruct w; [|by right; right..].
    destruct fl as [[hw bk]|]; cbn; [|left; by eexists].
    destruct hw; [by right; left|].
    left. destruct (bk !! key); by eexists.
Qed.

(** C6 (total and infallible).  For every key, the empty string included,
    every value and every store, both methods return, and return a nil
    error; the set endpoint answers every [setFeatureFlagRequest] with
    [Success = true] and a nil error; and the request whose body carries
    that key and that value is answered [200] with [{"success":true}]. *)
Theorem operations_total_and_infallible m ctx key (value : bool) (path : string) :
  (∃ v, GetFeatureFlag ctx key (store m) = Return (v, nilError) (store m))
  ∧ SetFeatureFlag ctx key value (store m)
    = Return nilError (store (<[key := value]> m))
  ∧ makeSetFeatureFlagEndpoint featureFlagService_FeatureFlagService ctx
      (anySetRequest {| setKey := key; setValue := value |}) (store m)
    = Return (anySetResponse {| Success := true |}, nilError)
             (store (<[key := value]> m))
  ∧ Transport.ServeHTTP
      (Transport.setFeatureFlagHandler featureFlagService_FeatureFlagService) ctx
      {| Transport.Path := path;
         Transport.Body :=
           JSON.BodyJSON (JSON.Object [("key", JSON.String key);
                                       ("value", JSON.Bool value)]) |}
      (store m)
    = Return (Transport.Written 200 (JSON.Object [("success", JSON.Bool true)]))
             (store (<[key := value]> m)).
Proof.
  split; [eexists; apply get_store|]. repeat split; reflexivity.
Qed.

(** C9 (the context is never consulted).  In every state of the struct, for
    every key and value, two calls that differ only in their context have
    the same outcome: the same result and the same resulting state. *)
Theorem context_is_ignored (ctx1 ctx2 : Context) key (value : bool)
    (s : featureFlagService) :
  GetFeatureFlag ctx1 key s = GetFeatureFlag ctx2 key s
  ∧ SetFeatureFlag ctx1 key value s = SetFeatureFlag ctx2 key value s.
Proof. split; reflexivity. Qed.

End StoreClaims.

(** C10 (the get endpoint drops the service's error).  Whatever implements
    the interface: when its [GetFeatureFlag] returns [val] with an error
    [err], nil or not, the endpoint returns the response [{Value: val}] with
    a nil error. *)
Theorem get_endpoint_discards_error {S} (svc : FeatureFlagService S)
    (ctx : Context) (req : getFeatureFlagRequest) (s s' : S)
    (val : bool) (err : error) :
  GetFeatureFlag ctx (getKey req) s = Return (val, err) s' →
  makeGetFeatureFlagEndpoint svc ctx (anyGetRequest req) s
  = Return (anyGetResponse {| getValue := val |}, nilError) s'.
Proof.
  intros H. unfold makeGetFeatureFlagEndpoint, assertGetRequest.
  unfold mbind, M_bind, Go.bind, mret, M_ret, Go.ret. cbn.
  by rewrite H.
Qed.

Lemma get_endpoint_discards_error_witness :
  makeGetFeatureFlagEndpoint Failing.service Background
    (anyGetRequest {| getKey := "beta" |}) ()
  = Return (anyGetResponse {| getValue := true |}, nilError) ().
Proof.
  apply (get_endpoint_discards_error Failing.service Background
           {| getKey := "beta" |} () () true (Some Failing.backendDown)).
  reflexivity.
Defined.

(** The recording service answers as the store does and adds the call to
    its log. *)
Lemma spy_get_store ctx key m log :
  GetFeatureFlag (FeatureFlagService := Spy.service) ctx key
    (FlagStore.store m, log)
  = Return (default false (m !! key), nilError)
           (FlagStore.store m, log ++ [FlagStore.CallGet ctx key]).
Proof.
  cbn [GetFeatureFlag Spy.service]. unfold Spy.lift.
  by rewrite get_store.
Qed.

(** ** Decoding and the transport pipeline *)

Section Decoding.
Import JSON Transport.

(** Once an error is saved it stays: later members cannot clear it. *)
Lemma setRequestMember_keeps_error members req e :
  ∃ req', foldl setRequestMember (req, Some e) members = (req', Some e).
Proof.
  revert req. induction members as [|[name v] members IH]; intros req.
  - by exists req.
  - cbn [foldl]. unfold setRequestMember at 2.
    destruct (lookupField setRequestFields name) as [f|]; [|apply IH].
    destruct (String.eqb f "key").
    + destruct (storeString "key" v (setKey req)) as [k err]. apply IH.
    + destruct (storeBool "value" v (setValue req)) as [b err]. apply IH.
Qed.

(** A value that is neither a boolean nor [null] is a type error for a
    [bool] field. *)
Lemma storeBool_error field v old :
  nonBoolean v → v ≠ Null →
  storeBool field v old = (old, Some (ErrUnmarshalType (describe v) field)).
Proof.
  intros Hb Hn. destruct v; try reflexivity.
  - by destruct Hn.
  - by destruct (Hb b).
Qed.

(** A member stored into [Value] whose value is neither a boolean nor
    [null] makes the decoding of the object fail. *)
Lemma setRequest_bad_value members name v req saved :
  (name, v) ∈ members →
  lookupField setRequestFields name = Some "value" →
  nonBoolean v → v ≠ Null →
  ∃ req' e, foldl setRequestMember (req, saved) members = (req', Some e).
Proof.
  intros Hin Hf Hb Hn. revert req saved.
  induction members as [|[name' v'] members IH]; intros req saved.
  - by apply elem_of_nil in Hin.
  - apply elem_of_cons in Hin as [Heq | Hin].
    + injection Heq as <- <-. cbn [foldl]. unfold setRequestMember at 2.
      rewrite Hf. cbn. rewrite (storeBool_error _ _ _ Hb Hn).
      destruct saved as [e|]; cbn;
        edestruct setRequestMember_keeps_error as [req' H];
        rewrite H; by eexists _, _.
    + cbn [foldl]. destruct (setRequestMember (req, saved) (name', v')).
      by apply IH.
Qed.

(** A struct with one field: a member goes to that field or to none. *)
Lemma lookupField_singleton field name :
  lookupField [field] name = Some field ∨ lookupField [field] name = None.
Proof.
  unfold lookupField. cbn [List.find].
  destruct (String.eqb name field); [by left|].
  destruct (String.eqb (foldName field) (foldName name)); [by left|by right].
Qed.

(** Members that name no field of the struct leave it as it is. *)
Lemma getRequest_omitted members req saved :
  omits getRequestFields "key" members →
  foldl getRequestMember (req, saved) members = (req, saved).
Proof.
  induction members as [|[name v] members IH]; intros Hom; [done|].
  cbn [foldl]. unfold getRequestMember at 2.
  assert (lookupField getRequestFields name = None) as ->.
  { pose proof (Hom name v (list_elem_of_here _ _)) as Hhd.
    unfold getRequestFields in *.
    by destruct (lookupField_singleton "key" name) as [H|H]. }
  apply IH. intros name' v' Hin. apply (Hom name' v').
  by apply list_elem_of_further.
Qed.

(** A request that the decoder rejects is answered with the error and goes
    no further: the endpoint is not called, so the state of the service,
    whichever implementation it is, stays what it was. *)
Lemma serve_decode_failure {S} (srv : Server S) ctx r request err (s : S) :
  dec srv ctx r = (request, Some err) →
  ServeHTTP srv ctx r s = Return (Failed 500 err) s.
Proof. intros H. unfold ServeHTTP. by rewrite H. Qed.

End Decoding.

Section TransportClaims.
Import JSON Transport FlagStore.

(** The scenario of the specification, request by request: on the empty
    store [get beta] answers [{"value":false}], [set beta true] answers
    [{"success":true}], and [get beta] then answers [{"value":true}]. *)
Example end_to_end :
  let serve := DefaultServeMux featureFlagService_FeatureFlagService Background in
  (r1 ← serve getBeta; r2 ← serve setBetaTrue; r3 ← serve getBeta;
   mret [r1; r2; r3]) newService
  = Return [Written 200 (Object [("value", Bool false)]);
            Written 200 (Object [("success", Bool true)]);
            Written 200 (Object [("value", Bool true)])]
           (store {["beta" := true]}).
Proof. reflexivity. Qed.

(** Member names are matched as [encoding/json] matches them: [KEY] and
    the name spelled with the Kelvin sign both reach the field [key]. *)
Example folded_names :
  lookupField getRequestFields "KEY" = Some "key"
  ∧ lookupField getRequestFields
      (String.String (ascii_of_nat 226)
         (String.String (ascii_of_nat 132)
            (String.String (ascii_of_nat 170) "ey"))) = Some "key"
  ∧ lookupField setRequestFields "Value" = Some "value"
  ∧ lookupField setRequestFields "name" = None.
Proof. repeat split; reflexivity. Qed.

(** C7, the claim as stated fails on two inputs.  The body [{}] omits [key],
    yet it decodes without an error to the request with the empty key, and
    the handler calls [GetFeatureFlag ""], as the log of the recording
    service shows.  The body [{"key":"beta","value":null}] has a [value] that
    is not a boolean, yet it decodes without an error, the handler calls
    [SetFeatureFlag "beta" false], and the map gains the entry for [beta]. *)
Lemma malformed_request_counterexample :
  omits getRequestFields "key" []
  ∧ decodeGetFeatureFlagRequest Background
      {| Path := "/get"; Body := BodyJSON (Object []) |}
    = (anyGetRequest {| getKey := "" |}, nilError)
  ∧ ServeHTTP (getFeatureFlagHandler Spy.service) Background
      {| Path := "/get"; Body := BodyJSON (Object []) |} (newService, [])
    = Return (Written 200 (Object [("value", Bool false)]))
             (newService, [CallGet Background ""])
  ∧ nonBoolean Null
  ∧ decodeSetFeatureFlagRequest Background
      {| Path := "/set";
         Body := BodyJSON (Object [("key", String "beta"); ("value", Null)]) |}
    = (anySetRequest {| setKey := "beta"; setValue := false |}, nilError)
  ∧ ServeHTTP (setFeatureFlagHandler featureFlagService_FeatureFlagService)
      Background
      {| Path := "/set";
         Body := BodyJSON (Object [("key", String "beta"); ("value", Null)]) |}
      (store ∅)
    = Return (Written 200 (Object [("success", Bool true)]))
             (store {["beta" := false]})
  ∧ store {["beta" := false]} ≠ store ∅.
Proof.
  split; [intros name v H; by apply elem_of_nil in H|].
  split; [reflexivity|]. split; [reflexivity|].
  split; [intros b; discriminate|].
  split; [reflexivity|]. split; [reflexivity|].
  intros H.
  apply (f_equal (fun s => h ← flags s; buckets h !! "beta")) in H.
  vm_compute in H. discriminate H.
Qed.

(** C7, amended.  For "set": an object with a member that is stored into
    [Value] and is a string, a number, an array or an object fails to decode;
    the handler answers with that error, and the state of the service,
    whichever implementation it is, is what it was before the request: the
    service is not invoked.  The same holds for every request that either
    decoder rejects.  For "get": an object that omits [key] decodes to the
    request with the empty key; the handler answers with the value of
    [GetFeatureFlag ""], which the log of the recording service shows as
    the one call made, and the store is unmodified. *)
Theorem malformed_request_rejection {S} (svc : FeatureFlagService S)
    (ctx : Context) (path : string) (s : S) :
  (∀ members name v,
     (name, v) ∈ members →
     lookupField setRequestFields name = Some "value" →
     nonBoolean v → v ≠ Null →
     ∃ err,
       decodeSetFeatureFlagRequest ctx
         {| Path := path; Body := BodyJSON (Object members) |}
       = (anyNil, Some err)
       ∧ ServeHTTP (setFeatureFlagHandler svc) ctx
           {| Path := path; Body := BodyJSON (Object members) |} s
         = Return (Failed 500 err) s)
  ∧ (∀ r request err,
       decodeGetFeatureFlagRequest ctx r = (request, Some err) →
       ServeHTTP (getFeatureFlagHandler svc) ctx r s = Return (Failed 500 err) s)
  ∧ (∀ r request err,
       decodeSetFeatureFlagRequest ctx r = (request, Some err) →
       ServeHTTP (setFeatureFlagHandler svc) ctx r s = Return (Failed 500 err) s)
  ∧ (∀ members m log,
       omits getRequestFields "key" members →
       decodeGetFeatureFlagRequest ctx
         {| Path := path; Body := BodyJSON (Object members) |}
       = (anyGetRequest {| getKey := "" |}, nilError)
       ∧ ServeHTTP (getFeatureFlagHandler Spy.service) ctx
           {| Path := path; Body := BodyJSON (Object members) |} (store m, log)
         = Return (Written 200 (Object [("value", Bool (default false (m !! "")))]))
                  (store m, log ++ [CallGet ctx ""])).
Proof.
  split; [|split; [|split]].
  - intros members name v Hin Hf Hb Hn.
    destruct (setRequest_bad_value members name v
                {| setKey := ""; setValue := false |} nilError Hin Hf Hb Hn)
      as (req' & e & Hfold).
    assert (decodeSetFeatureFlagRequest ctx
              {| Path := path; Body := BodyJSON (Object members) |}
            = (anyNil, Some e)) as Hdec.
    { unfold decodeSetFeatureFlagRequest, Decode, unmarshalInto. cbn [Body].
      by rewrite Hfold. }
    exists e. split; [exact Hdec|].
    by apply (serve_decode_failure (setFeatureFlagHandler svc) ctx _ anyNil).
  - intros r request err H.
    by apply (serve_decode_failure (getFeatureFlagHandler svc) ctx r request).
  - intros r request err H.
    by apply (serve_decode_failure (setFeatureFlagHandler svc) ctx r request).
  - intros members m log Hom.
    assert (decodeGetFeatureFlagRequest ctx
              {| Path := path; Body := BodyJSON (Object members) |}
            = (anyGetRequest {| getKey := "" |}, nilError)) as Hdec.
    { unfold decodeGetFeatureFlagRequest, Decode, unmarshalInto. cbn [Body].
      by rewrite (getRequest_omitted members _ _ Hom). }
    split; [exact Hdec|].
    unfold ServeHTTP, getFeatureFlagHandler. cbn [dec e enc]. rewrite Hdec.
    unfold nilError, makeGetFeatureFlagEndpoint, assertGetRequest.
    unfold mbind, M_bind, Go.bind, mret, M_ret, Go.ret.
    cbn [getKey]. rewrite spy_get_store. reflexivity.
Qed.

Lemma malformed_request_rejection_witness :
  (∃ err,
     decodeSetFeatureFlagRequest Background
       {| Path := "/set";
          Body := BodyJSON (Object [("key", String "beta");
                                    ("value", String "yes")]) |}
     = (anyNil, Some err)
     ∧ ServeHTTP (setFeatureFlagHandler Spy.service) Background
         {| Path := "/set";
            Body := BodyJSON (Object [("key", String "beta");
                                      ("value", String "yes")]) |}
         (newService, [])
       = Return (Failed 500 err) (newService, []))
  ∧ ServeHTTP (getFeatureFlagHandler Spy.service) Background
      {| Path := "/get";
         Body := BodyJSON (Object [("name", String "beta")]) |}
      (store {["" := true]}, [])
    = Return (Written 200 (Object [("value", Bool true)]))
             (store {["" := true]}, [CallGet Background ""]).
Proof.
  pose proof (malformed_request_rejection Spy.service Background "/set"
                (newService, [])) as (Hset & _ & _ & _).
  pose proof (malformed_request_rejection Spy.service Background "/get"
                (newService, [])) as (_ & _ & _ & Hget).
  split.
  - apply (Hset [("key", String "beta"); ("value", String "yes")]
             "value" (String "yes")).
    + apply list_elem_of_further, list_elem_of_here.
    + reflexivity.
    + intros b; discriminate.
    + discriminate.
  - refine (proj2 (Hget [("name", String "beta")] {["" := true]} [] _)).
    intros name v H. apply list_elem_of_singleton in H.
    injection H as -> ->. vm_compute. discriminate.
Defined.

End TransportClaims.

(** ** Handlers that run at the same time *)

Section Handlers.
Import FlagStore Concurrent.

Implicit Types (f g : pc → bool) (l : list pc) (p q : pc) (w : world).

(** *** A handler on its own does what the method does *)

(** Run alone, the handler of a [GetFeatureFlag] ends, in every state of the
    struct, as the method does: same result, same panic, same state, or it
    waits for the lock where the method blocks. *)
Lemma get_handler_agrees ctx key (s : featureFlagService) :
  outcome_of (thread_run 3 (GetEntry key) s) = call (CallGet ctx key) s.
Proof.
  destruct s as [fl [n ws]].
  unfold call, GetFeatureFlag, mbind, M_bind, Go.bind, defer, mret, M_ret, Go.ret.
  cbn [thread_run thread_step]. unfold after at 1.
  unfold mu_RLock, Go.RLock; cbn [mu flags writer readerCount].
  destruct ws; [|reflexivity..]. cbn [thread_run thread_step].
  unfold after at 1. unfold flags_index; cbn [flags].
  destruct (mapaccess fl key) as [[msg|msg]|[val ok]];
    cbn [fail thread_run thread_step]; try reflexivity.
  unfold after, mu_RUnlock, Go.RUnlock; cbn. by destruct ok.
Qed.

(** The same for the handler of a [SetFeatureFlag]. *)
Lemma set_handler_agrees ctx key value (s : featureFlagService) :
  outcome_of (thread_run 5 (SetEntry key value) s) = call (CallSet ctx key value) s.
Proof.
  destruct s as [fl [n ws]].
  unfold call, SetFeatureFlag, mbind, M_bind, Go.bind, defer, mret, M_ret, Go.ret.
  cbn [thread_run thread_step]. unfold after at 1.
  unfold mu_Lock, mu_Lock_announce, Go.Lock, Go.Lock_announce;
    cbn [mu flags writer readerCount].
  destruct ws; [|reflexivity..]. cbn [thread_run thread_step].
  unfold after at 1. unfold mu_Lock_acquire, Go.Lock_acquire;
    cbn [mu flags writer readerCount].
  destruct n; [|reflexivity]. cbn [thread_run thread_step].
  unfold after at 1.
  unfold flags_assign_begin, flags_assign, mapassign, mapassign_begin; cbn [flags].
  destruct fl as [[hw bk]|]; [|reflexivity].
  destruct hw; reflexivity.
Qed.

(** *** Counting handlers *)

Lemma tally_app f l p : tally f (l ++ [p]) = tally f l + bit (f p).
Proof.
  induction l as [|q l IH]; cbn [tally app]; [|rewrite IH]; lia.
Qed.

Lemma tally_insert f l i p p' :
  l !! i = Some p →
  tally f (<[i := p']> l) + bit (f p) = tally f l + bit (f p').
Proof.
  revert i. induction l as [|q l IH]; intros i Hi; [done|].
  destruct i as [|i]; cbn in Hi.
  - injection Hi as ->.
    change (<[0 := p']> (p :: l)) with (p' :: l). cbn [tally]. lia.
  - change (<[S i := p']> (q :: l)) with (q :: <[i := p']> l).
    cbn [tally]. specialize (IH i Hi). lia.
Qed.

Lemma tally_lookup f l i p : l !! i = Some p → (bit (f p) ≤ tally f l)%nat.
Proof.
  revert i. induction l as [|q l IH]; intros i Hi; [done|].
  destruct i as [|i]; cbn in Hi.
  - injection Hi as ->. cbn [tally]. lia.
  - cbn [tally]. specialize (IH i Hi). lia.
Qed.

Lemma tally_mono f g l :
  (∀ q, f q = true → g q = true) → (tally f l ≤ tally g l)%nat.
Proof.
  intros Hfg. induction l as [|q l IH]; cbn [tally]; [lia|].
  specialize (Hfg q).
  destruct (f q), (g q); cbn [bit]; first [lia | by specialize (Hfg eq_refl)].
Qed.

(** When every [f]-handler is a [g]-handler, a [g]-handler that is not an
    [f]-handler makes the count of [g] strictly larger. *)
Lemma tally_sub f g l i p :
  (∀ q, f q = true → g q = true) →
  l !! i = Some p →
  (tally f l + bit (g p && negb (f p)) ≤ tally g l)%nat.
Proof.
  intros Hfg. revert i. induction l as [|q l IH]; [done|].
  pose proof (tally_mono f g l Hfg) as Hle.
  intros [|i] Hi; cbn in Hi.
  - injection Hi as ->. cbn [tally]. specialize (Hfg p).
    destruct (f p), (g p); cbn [bit andb negb];
      first [lia | by specialize (Hfg eq_refl)].
  - cbn [tally]. specialize (IH i Hi). specialize (Hfg q).
    destruct (f q), (g q); cbn [bit];
      first [lia | by specialize (Hfg eq_refl)].
Qed.

(** With one [f]-handler in all, any other handler is not an [f]-handler. *)
Lemma tally_unique f l i j p q :
  (tally f l ≤ 1)%nat →
  l !! i = Some p → l !! j = Some q → i ≠ j →
  f p = true → f q = false.
Proof.
  intros Hone Hi Hj Hij Hp. revert i j Hi Hj Hij.
  induction l as [|a l IH]; intros i j Hi Hj Hij; [done|].
  cbn [tally] in Hone.
  destruct i as [|i], j as [|j]; cbn in Hi, Hj; [done| | |].
  - injection Hi as ->. pose proof (tally_lookup f l j q Hj) as Hq.
    rewrite Hp in Hone. destruct (f q); cbn [bit] in *; [lia|done].
  - injection Hj as ->. pose proof (tally_lookup f l i p Hi) as Hq.
    rewrite Hp in Hq. destruct (f q); cbn [bit] in *; [lia|done].
  - apply (IH ltac:(lia) i j Hi Hj). congruence.
Qed.

Lemma storing_writing q : storing q = true → writing q = true.
Proof. by destruct q. Qed.

End Handlers.

Section Discipline.
Import FlagStore Concurrent.

Implicit Types (l : list pc) (p q : pc) (w : world).

(** *** The invariant *)

Lemma invariant_init : invariant init.
Proof.
  split; cbn; try done. eexists. split; [reflexivity|done].
Qed.

(** The handler of a request that has just arrived holds nothing. *)
Lemma entry_outside c :
  reading (entry c) = false ∧ pending (entry c) = false
  ∧ writing (entry c) = false ∧ storing (entry c) = false
  ∧ panicking (entry c) = false.
Proof. by destruct c. Qed.

Lemma invariant_request w c :
  invariant w →
  invariant {| svc := svc w; threads := threads w ++ [entry c] |}.
Proof.
  intros [Hr Hq Hw Hx (h & Hfl & Hst) Hp].
  destruct (entry_outside c) as (Er & Eq & Ew & Es & Ep).
  split; cbn [svc threads]; rewrite ?tally_app, ?Er, ?Eq, ?Ew, ?Es, ?Ep;
    cbn [bit]; rewrite ?Nat.add_0_r; try done.
  by exists h.
Qed.

(** The facts about the counts that a step of handler [i] needs. *)
Ltac counts ths i p p' Hi :=
  pose proof (tally_insert reading ths i p p' Hi);
  pose proof (tally_insert pending ths i p p' Hi);
  pose proof (tally_insert writing ths i p p' Hi);
  pose proof (tally_insert storing ths i p p' Hi);
  pose proof (tally_insert panicking ths i p p' Hi);
  pose proof (tally_lookup reading ths i p Hi);
  pose proof (tally_lookup pending ths i p Hi);
  pose proof (tally_lookup writing ths i p Hi);
  pose proof (tally_lookup storing ths i p Hi);
  pose proof (tally_lookup panicking ths i p Hi);
  pose proof (tally_sub storing writing ths i p storing_writing Hi).

(** Unfolding a step of a handler down to the state of the lock and of the
    map. *)
Ltac unfold_step H :=
  cbn [thread_step] in H;
  unfold after, mu_RLock, mu_RUnlock, mu_Lock_announce, mu_Lock_acquire,
    mu_Unlock, flags_index, flags_assign_begin, flags_assign_end,
    Go.RLock, Go.RUnlock, Go.Lock_announce, Go.Lock_acquire, Go.Unlock,
    mapaccess, mapassign_begin, mapassign_end in H;
  cbn [flags mu readerCount writer hashWriting buckets fail] in H.

(** The invariant of the state after a step, field by field. *)
Ltac close_invariant :=
  split; cbn [svc threads flags mu readerCount writer isPending isHeld bit];
  [ lia | lia | lia | first [discriminate | intros _; lia]
  | eexists; split; [reflexivity | cbn [hashWriting bit]; lia] | lia ].

Lemma invariant_handler w i p p' s' :
  invariant w →
  threads w !! i = Some p →
  thread_step p (svc w) = Some (p', s') →
  invariant {| svc := s'; threads := <[i := p']> (threads w) |}.
Proof.
  intros [Hr Hq Hw Hx (h & Hfl & Hst) Hp] Hi Hts.
  destruct w as [[fl [n ws]] ths]. cbn [svc threads flags mu] in *.
  cbn [readerCount writer] in *. subst fl. destruct h as [hw bk].
  cbn [hashWriting] in Hst.
  counts ths i p p' Hi.
  destruct p; unfold_step Hts;
    cbn [reading pending writing storing panicking bit andb negb] in *;
    (destruct ws; [clear Hx | clear Hx | specialize (Hx eq_refl)]);
    destruct n as [|n]; destruct hw;
    cbn [isPending isHeld bit] in *;
    try match type of Hts with
        | context [bk !! ?k] => destruct (bk !! k)
        end;
    try discriminate Hts; try lia;
    injection Hts as <- <-;
    cbn [reading pending writing storing panicking bit] in *;
    close_invariant.
Qed.

Lemma invariant_step w w' : invariant w → step w w' → invariant w'.
Proof.
  intros Hinv Hstep. destruct Hstep as [w c _ | w i p p' s' _ Hi Hts].
  - by apply invariant_request.
  - by apply (invariant_handler w i p p' s').
Qed.

Lemma reachable_invariant w : reachable w → invariant w.
Proof.
  induction 1 as [|w w' _ IH Hstep]; [apply invariant_init|].
  by apply (invariant_step w w').
Qed.

(** A process that can be reached is running: no handler has died. *)
Lemma thrown_panicking q : thrown q = true → panicking q = true.
Proof. by destruct q. Qed.

Lemma reachable_alive w : reachable w → alive w.
Proof.
  intros H. destruct (reachable_invariant w H) as [_ _ _ _ _ Hp].
  pose proof (tally_mono thrown panicking (threads w) thrown_panicking).
  unfold alive. lia.
Qed.

End Discipline.

Section ConcurrencyClaims.
Import FlagStore Concurrent.

Implicit Types (l : list pc) (p q : pc) (w : world).

(** While no writer is announced or inside, [RLock] lets a reader in,
    however many readers are inside already. *)
Lemma reader_admitted key (s : featureFlagService) :
  writer (mu s) = NoWriter →
  thread_step (GetEntry key) s
  = Some (GetLocked key,
          {| flags := flags s;
             mu := {| readerCount := S (readerCount (mu s));
                      writer := NoWriter |} |}).
Proof.
  intros H. cbn [thread_step]. unfold after, mu_RLock, Go.RLock. by rewrite H.
Qed.

(** A request that arrives while no writer is announced or inside gets
    into the read section, next to the readers already there. *)
Lemma reader_enters w key :
  reachable w →
  writer (mu (svc w)) = NoWriter →
  reachable
    {| svc := {| flags := flags (svc w);
                 mu := {| readerCount := S (readerCount (mu (svc w)));
                          writer := NoWriter |} |};
       threads := threads w ++ [GetLocked key] |}.
Proof.
  intros Hw Hfree. destruct w as [s ths]. cbn [svc threads] in *.
  pose (w1 := {| svc := s; threads := ths ++ [GetEntry key] |}).
  assert (reachable w1) as Hw1.
  { apply (reachable_step _ _ Hw).
    apply (step_request {| svc := s; threads := ths |}
             (CallGet Background key) (reachable_alive _ Hw)). }
  assert (threads w1 !! (length ths + 0) = Some (GetEntry key)) as Hi.
  { cbn [threads w1]. by rewrite lookup_app_r, Nat.add_0_r, Nat.sub_diag by lia. }
  pose proof (reachable_step _ _ Hw1
                (step_handler w1 _ _ _ _ (reachable_alive _ Hw1) Hi
                   (reader_admitted key s Hfree))) as Hw2.
  cbn [threads w1] in Hw2. rewrite insert_app_r in Hw2. exact Hw2.
Qed.

(** Two such requests are inside the read section at the same time. *)
Lemma two_readers_inside w k1 k2 :
  reachable w →
  writer (mu (svc w)) = NoWriter →
  reachable
    {| svc := {| flags := flags (svc w);
                 mu := {| readerCount := S (S (readerCount (mu (svc w))));
                          writer := NoWriter |} |};
       threads := threads w ++ [GetLocked k1; GetLocked k2] |}.
Proof.
  intros Hw Hfree.
  pose proof (reader_enters _ k2 (reader_enters w k1 Hw Hfree) eq_refl) as H.
  cbn [svc threads flags mu readerCount] in H.
  by rewrite <- app_assoc in H.
Qed.

(** C8 (readers share, a writer excludes).  In every state that the process
    can reach, with any number of requests being handled:
    - a handler inside [SetFeatureFlag]'s locked section is alone: no other
      handler is inside either method's locked section;
    - no handler has panicked or met a fatal error: the runtime has never
      found a map read or a map write meeting another write;
    - a handler about to read the map finds it with no assignment under way
      and loads the entry that the map holds, or [false] when it holds none;
    - readers do not exclude each other: while no writer is announced or
      inside, two more [GetFeatureFlag] requests can arrive and both be
      inside the locked section at once, next to the readers already
      there. *)
Theorem readers_share_writer_excludes w :
  reachable w →
  (∀ i j p q,
     threads w !! i = Some p → threads w !! j = Some q → i ≠ j →
     writing p = true → reading q = false ∧ writing q = false)
  ∧ (∀ i p, threads w !! i = Some p → panicking p = false)
  ∧ (∀ i key,
       threads w !! i = Some (GetLocked key) →
       ∃ m, flags (svc w) = Some {| hashWriting := false; buckets := m |}
            ∧ thread_step (GetLocked key) (svc w)
              = Some (match m !! key with
                      | Some v => GetLoaded v true
                      | None => GetLoaded false false
                      end, svc w))
  ∧ (∀ k1 k2,
       writer (mu (svc w)) = NoWriter →
       reachable
         {| svc := {| flags := flags (svc w);
                      mu := {| readerCount := S (S (readerCount (mu (svc w))));
                               writer := NoWriter |} |};
            threads := threads w ++ [GetLocked k1; GetLocked k2] |}).
Proof.
  intros Hreach.
  destruct (reachable_invariant w Hreach) as [Hr Hq Hw Hx (h & Hfl & Hst) Hp].
  split; [|split; [|split]].
  - intros i j p q Hi Hj Hij Hwp.
    pose proof (tally_lookup writing _ _ _ Hi) as Hp1. rewrite Hwp in Hp1.
    cbn [bit] in Hp1.
    assert (writer (mu (svc w)) = WriterHeld) as Hheld.
    { destruct (writer (mu (svc w))); cbn [isHeld bit] in Hw; [lia..|done]. }
    split.
    + pose proof (tally_lookup reading _ _ _ Hj) as Hrq.
      rewrite (Hx Hheld) in Hrq.
      destruct (reading q); [cbn [bit] in Hrq; lia|done].
    + apply (tally_unique writing (threads w) i j p q); try done.
      rewrite <- Hw, Hheld. cbn [isHeld bit]. lia.
  - intros i p Hi. pose proof (tally_lookup panicking _ _ _ Hi) as Hpq.
    rewrite Hp in Hpq. destruct (panicking p); [cbn [bit] in Hpq; lia|done].
  - intros i key Hi.
    pose proof (tally_lookup reading _ _ _ Hi) as Hrq. cbn [reading bit] in Hrq.
    assert (tally writing (threads w) = 0) as Hnow.
    { destruct (writer (mu (svc w))); cbn [isHeld bit] in Hw; [lia..|].
      specialize (Hx eq_refl). lia. }
    pose proof (tally_mono storing writing (threads w) storing_writing) as Hsw.
    destruct h as [hw bk]. cbn [hashWriting] in Hst.
    destruct hw; [cbn [bit] in Hst; lia|].
    exists bk. split; [exact Hfl|].
    cbn [thread_step]. unfold after, flags_index, mapaccess. rewrite Hfl.
    cbn [hashWriting buckets]. by destruct (bk !! key).
  - intros k1 k2 Hfree. by apply two_readers_inside.
Qed.

(** A state of the process with a writer inside and a reader at the door:
    the write request came first and took the lock, the read request
    waits. *)
Lemma readers_share_writer_excludes_witness :
  let w := {| svc := {| flags := make;
                        mu := {| readerCount := 0; writer := WriterHeld |} |};
              threads := [SetLocked "beta" true; GetEntry "beta"] |} in
  (∀ i j p q,
     threads w !! i = Some p → threads w !! j = Some q → i ≠ j →
     writing p = true → reading q = false ∧ writing q = false)
  ∧ (∀ i p, threads w !! i = Some p → panicking p = false)
  ∧ thread_step (GetEntry "beta") (svc w) = None.
Proof.
  intros w.
  pose (w1 := {| svc := newService; threads := [SetEntry "beta" true] |}).
  pose (w2 := {| svc := newService;
                 threads := [SetEntry "beta" true; GetEntry "beta"] |}).
  pose (w3 := {| svc := {| flags := make;
                           mu := {| readerCount := 0; writer := WriterPending |} |};
                 threads := [SetPending "beta" true; GetEntry "beta"] |}).
  assert (reachable w) as Hw.
  { apply (reachable_step w3).
    - apply (reachable_step w2).
      + apply (reachable_step w1).
        * apply (reachable_step init _ reachable_init
                   (step_request init (CallSet Background "beta" true) eq_refl)).
        * apply (step_request w1 (CallGet Background "beta") eq_refl).
      + apply (step_handler w2 0 (SetEntry "beta" true) (SetPending "beta" true));
          reflexivity.
    - apply (step_handler w3 0 (SetPending "beta" true) (SetLocked "beta" true));
        reflexivity. }
  destruct (readers_share_writer_excludes w Hw) as (Hex & Hpanic & _ & _).
  split; [exact Hex|]. split; [exact Hpanic|]. reflexivity.
Defined.

End ConcurrencyClaims.

(* ===================================================================== *)
(** * Further properties                                                   *)
(* ===================================================================== *)

(** ** Histories of calls *)

Section Histories.
Import FlagStore.

Implicit Types (m : gmap string bool) (ctx : Context) (key : string)
  (cs : list Call).

(** What a history leaves under a key is its last write of the key, or what
    was there before. *)
Lemma foldl_effect_lookup key cs m :
  foldl effect m cs !! key
  = match lastWrite key cs with
    | Some v => Some v
    | None => m !! key
    end.
Proof.
  unfold lastWrite. induction cs as [|c cs IH] using rev_ind; [done|].
  rewrite !foldl_app. cbn [foldl].
  destruct c as [ctx k | ctx k v]; cbn [effect]; [exact IH|].
  destruct (decide (k = key)) as [->|Hne].
  - by rewrite bool_decide_eq_true_2, lookup_insert_eq.
  - by rewrite bool_decide_eq_false_2, lookup_insert_ne.
Qed.

(** X1 (a read returns the last write).  After any history of calls on the
    store that [main] creates, [GetFeatureFlag key] returns the value of the
    last [SetFeatureFlag] of that key in the history, and [false] when the
    history has none; the error is nil. *)
Theorem get_returns_last_write cs ctx key :
  ∃ rs s,
    run cs newService = Return rs s
    ∧ GetFeatureFlag ctx key s
      = Return (default false (lastWrite key cs), nilError) s.
Proof.
  rewrite newService_store. destruct (run_store cs ∅) as [rs Hrun].
  exists rs, (store (foldl effect ∅ cs)). split; [exact Hrun|].
  rewrite get_store, foldl_effect_lookup, lookup_empty.
  by destruct (lastWrite key cs).
Qed.

(** X2 (writes of different keys commute).  Two [SetFeatureFlag] calls on
    different keys leave the same store in either order. *)
Theorem writes_commute m ctx1 ctx2 (k1 k2 : string) (v1 v2 : bool) :
  k1 ≠ k2 →
  ∃ s,
    run [CallSet ctx1 k1 v1; CallSet ctx2 k2 v2] (store m)
    = Return [SetResult nilError; SetResult nilError] s
    ∧ run [CallSet ctx2 k2 v2; CallSet ctx1 k1 v1] (store m)
      = Return [SetResult nilError; SetResult nilError] s.
Proof.
  intros Hne. exists (store (<[k2 := v2]> (<[k1 := v1]> m))).
  cbn [run call]. unfold mbind, M_bind, Go.bind, mret, M_ret, Go.ret.
  rewrite !set_store. split; [done|].
  by rewrite (insert_insert_ne m k1 k2 v1 v2 Hne).
Qed.

Lemma writes_commute_witness :
  ∃ s,
    run [CallSet Background "alpha" true; CallSet Background "beta" false]
      (store ∅)
    = Return [SetResult nilError; SetResult nilError] s
    ∧ run [CallSet Background "beta" false; CallSet Background "alpha" true]
        (store ∅)
      = Return [SetResult nilError; SetResult nilError] s.
Proof.
  apply (writes_commute ∅ Background Background "alpha" "beta" true false).
  discriminate.
Defined.

(** X3 (a repeated write changes nothing more).  [SetFeatureFlag key value]
    twice leaves the store that it leaves once. *)
Theorem write_idempotent m ctx1 ctx2 key (value : bool) :
  ∃ s,
    run [CallSet ctx1 key value] (store m) = Return [SetResult nilError] s
    ∧ run [CallSet ctx1 key value; CallSet ctx2 key value] (store m)
      = Return [SetResult nilError; SetResult nilError] s.
Proof.
  exists (store (<[key := value]> m)).
  cbn [run call]. unfold mbind, M_bind, Go.bind, mret, M_ret, Go.ret.
  rewrite !set_store. split; [done|]. by rewrite insert_insert_eq.
Qed.

Lemma dom_effect m c : dom m ⊆ dom (effect m c).
Proof.
  destruct c as [ctx k | ctx k v]; cbn [effect]; [done|].
  rewrite dom_insert_L. set_solver.
Qed.

(** X4 (no flag is ever removed).  Whatever calls are made, every key that
    the map holds stays in the map: the map only grows.  Under each key it
    holds the last value written by the calls, or what it held before. *)
Theorem flags_never_removed cs m :
  ∃ rs m',
    run cs (store m) = Return rs (store m')
    ∧ dom m ⊆ dom m'
    ∧ ∀ key, m' !! key = match lastWrite key cs with
                         | Some v => Some v
                         | None => m !! key
                         end.
Proof.
  destruct (run_store cs m) as [rs Hrun].
  exists rs, (foldl effect m cs). split; [exact Hrun|]. split.
  - clear Hrun. revert m. induction cs as [|c cs IH]; intros m; [done|].
    cbn [foldl]. etrans; [apply (dom_effect m c)|apply IH].
  - intros key. apply foldl_effect_lookup.
Qed.

(** X14 (a flag that is off and a flag that is not there read alike).
    Writing [false] under a key that the map does not hold adds the key to
    the map, and yet no read tells the difference: [GetFeatureFlag] of every
    key returns after the write what it returned before. *)
Theorem absent_reads_as_false m ctx key :
  m !! key = None →
  ∃ s,
    SetFeatureFlag ctx key false (store m) = Return nilError s
    ∧ s ≠ store m
    ∧ ∀ ctx' key' r,
        GetFeatureFlag ctx' key' (store m) = Return r (store m) →
        GetFeatureFlag ctx' key' s = Return r s.
Proof.
  intros Habs. exists (store (<[key := false]> m)).
  split; [apply set_store|]. split.
  - intros H.
    apply (f_equal (fun s => h ← flags s; buckets h !! key)) in H.
    cbn in H. by rewrite lookup_insert_eq, Habs in H.
  - intros ctx' key' r. rewrite !get_store. intros H.
    injection H as <-. f_equal. f_equal.
    destruct (decide (key = key')) as [<-|Hne].
    + by rewrite lookup_insert_eq, Habs.
    + by rewrite lookup_insert_ne.
Qed.

Lemma absent_reads_as_false_witness :
  ∃ s,
    SetFeatureFlag Background "beta" false (store {["alpha" := true]})
    = Return nilError s
    ∧ s ≠ store {["alpha" := true]}
    ∧ ∀ ctx' key' r,
        GetFeatureFlag ctx' key' (store {["alpha" := true]})
        = Return r (store {["alpha" := true]}) →
        GetFeatureFlag ctx' key' s = Return r s.
Proof.
  apply (absent_reads_as_false {["alpha" := true]} Background "beta").
  reflexivity.
Defined.

End Histories.


(** ** Endpoints *)

Section Endpoints.

(** X5 (the set endpoint drops the service's error).  Whatever implements
    the interface: when its [SetFeatureFlag] returns an error, the endpoint
    still returns [{Success: true}] with a nil error. *)
Theorem set_endpoint_discards_error {S} (svc : FeatureFlagService S)
    (ctx : Context) (req : setFeatureFlagRequest) (s s' : S) (err : error) :
  SetFeatureFlag ctx (setKey req) (setValue req) s = Return err s' →
  makeSetFeatureFlagEndpoint svc ctx (anySetRequest req) s
  = Return (anySetResponse {| Success := true |}, nilError) s'.
Proof.
  intros H. unfold makeSetFeatureFlagEndpoint, assertSetRequest.
  unfold mbind, M_bind, Go.bind, mret, M_ret, Go.ret. cbn.
  by rewrite H.
Qed.

Lemma set_endpoint_discards_error_witness :
  makeSetFeatureFlagEndpoint Failing.service Background
    (anySetRequest {| setKey := "beta"; setValue := true |}) ()
  = Return (anySetResponse {| Success := true |}, nilError) ().
Proof.
  apply (set_endpoint_discards_error Failing.service Background
           {| setKey := "beta"; setValue := true |} () ()
           (Some Failing.backendDown)).
  reflexivity.
Defined.

(** X6 (a request of the wrong type).  An endpoint that is handed a value
    of another type than its own request type panics in the type assertion,
    before it calls the service: the state of the service, whichever
    implementation it is, is what it was. *)
Theorem endpoint_wrong_request_panics {S} (svc : FeatureFlagService S)
    (ctx : Context) (request : any) (s : S) :
  (match request with anyGetRequest _ => False | _ => True end →
   makeGetFeatureFlagEndpoint svc ctx request s = Panic panicConversion s)
  ∧ (match request with anySetRequest _ => False | _ => True end →
     makeSetFeatureFlagEndpoint svc ctx request s = Panic panicConversion s).
Proof.
  split; intros H; by destruct request.
Qed.

Lemma endpoint_wrong_request_panics_witness :
  makeGetFeatureFlagEndpoint Spy.service Background
    (anySetRequest {| setKey := "beta"; setValue := true |})
    (FlagStore.newService, [])
  = Panic panicConversion (FlagStore.newService, [])
  ∧ makeSetFeatureFlagEndpoint Spy.service Background
      (anyGetRequest {| getKey := "beta" |}) (FlagStore.newService, [])
    = Panic panicConversion (FlagStore.newService, []).
Proof.
  split.
  - apply (proj1 (endpoint_wrong_request_panics Spy.service Background
                    (anySetRequest {| setKey := "beta"; setValue := true |})
                    (FlagStore.newService, []))).
    exact I.
  - apply (proj2 (endpoint_wrong_request_panics Spy.service Background
                    (anyGetRequest {| getKey := "beta" |})
                    (FlagStore.newService, []))).
    exact I.
Defined.

End Endpoints.

(** ** What the decoders accept *)

Section Decoders.
Import JSON Transport Decoded.

Lemma lookupField_elem fields name f :
  lookupField fields name = Some f → f ∈ fields.
Proof.
  unfold lookupField. intros H. apply list_elem_of_In.
  destruct (List.find (String.eqb name) fields) eqn:E.
  - injection H as <-. by apply List.find_some in E as [E _].
  - by apply List.find_some in H as [H _].
Qed.

Lemma lookupField_get name f :
  lookupField getRequestFields name = Some f → f = "key".
Proof.
  intros H. apply lookupField_elem in H.
  by apply list_elem_of_singleton in H.
Qed.

Lemma lookupField_set name f :
  lookupField setRequestFields name = Some f → f = "key" ∨ f = "value".
Proof.
  intros H. apply lookupField_elem in H. unfold setRequestFields in H.
  apply elem_of_cons in H as [H|H]; [by left|].
  apply list_elem_of_singleton in H. by right.
Qed.

Lemma getRequestMember_keeps_error members req e :
  ∃ req', foldl getRequestMember (req, Some e) members = (req', Some e).
Proof.
  revert req. induction members as [|[name v] members IH]; intros req.
  - by exists req.
  - cbn [foldl]. unfold getRequestMember at 2.
    destruct (lookupField getRequestFields name) as [f|]; [|apply IH].
    destruct (storeString "key" v (getKey req)) as [k err]. apply IH.
Qed.

(** Acceptable members are stored one after the other and raise no error. *)
Lemma getRequest_accepted members req saved :
  forallb getMemberOK members = true →
  foldl getRequestMember (req, saved) members
  = ({| getKey := stringOf getRequestFields "key" members (getKey req) |}, saved).
Proof.
  revert req saved. unfold stringOf.
  induction members as [|[name v] members IH]; intros req saved Hok.
  - by destruct req.
  - cbn [forallb] in Hok. apply andb_prop in Hok as [Hm Hok].
    cbn [foldl]. unfold getRequestMember at 2. unfold getMemberOK in Hm.
    cbn [fst snd] in *.
    destruct (lookupField getRequestFields name) as [f|] eqn:Ef.
    + apply lookupField_get in Ef as ->.
      destruct v; try discriminate Hm; cbn [storeString];
        rewrite IH by done; cbn [getKey];
        rewrite ?String.eqb_refl; by destruct saved.
    + by rewrite IH.
Qed.

(** A member that is not acceptable makes the decoding fail. *)
Lemma getRequest_rejected members req saved :
  forallb getMemberOK members = false →
  ∃ req' e, foldl getRequestMember (req, saved) members = (req', Some e).
Proof.
  revert req saved.
  induction members as [|[name v] members IH]; intros req saved Hok;
    [discriminate|].
  cbn [forallb] in Hok. cbn [foldl].
  destruct (getMemberOK (name, v)) eqn:Hm.
  - destruct (getRequestMember (req, saved) (name, v)). by apply IH.
  - unfold getRequestMember at 2. unfold getMemberOK in Hm. cbn [fst snd] in Hm.
    destruct (lookupField getRequestFields name) as [f|]; [|discriminate].
    destruct v; try discriminate Hm; cbn [storeString];
      destruct saved as [e0|]; cbn [saveError];
      edestruct getRequestMember_keeps_error as [req' H];
      rewrite H; by eexists _, _.
Qed.

(** The two cases of [decodeGetFeatureFlagRequest]. *)
Lemma decodeGet_cases (ctx : Context) (r : Request) :
  ∃ e,
    decodeGetFeatureFlagRequest ctx r
    = if bodyOK getMemberOK (Body r)
      then (anyGetRequest
              {| getKey := stringOf getRequestFields "key" (membersOf (Body r)) "" |},
            nilError)
      else (anyNil, Some e).
Proof.
  unfold decodeGetFeatureFlagRequest, Decode, unmarshalInto.
  destruct (Body r) as [| |v]; cbn [bodyOK membersOf];
    [by exists ErrEOF|by exists ErrSyntax|].
  destruct v; cbn [bodyOK membersOf];
    try (eexists; reflexivity); [by exists ErrEOF|].
  destruct (forallb getMemberOK members) eqn:Hok.
  - exists ErrEOF. by rewrite (getRequest_accepted members _ _ Hok).
  - destruct (getRequest_rejected members {| getKey := "" |} nilError Hok)
      as (req' & e & H).
    exists e. by rewrite H.
Qed.

(** X7 (what "get" bodies are accepted).  [decodeGetFeatureFlagRequest]
    succeeds exactly on the body [null] and on the objects in which every
    member that goes to [Key] is a string or [null]; other members are
    ignored.  The request it returns has the string of the last such member
    as its key, and the empty key when there is none.  Every other body
    (empty, not JSON, another JSON value, a [key] of another type) gives
    [nil] and an error. *)
Theorem decode_get_accepts (ctx : Context) (r : Request) :
  ∃ e,
    decodeGetFeatureFlagRequest ctx r
    = if bodyOK getMemberOK (Body r)
      then (anyGetRequest
              {| getKey := stringOf getRequestFields "key" (membersOf (Body r)) "" |},
            nilError)
      else (anyNil, Some e).
Proof. exact (decodeGet_cases ctx r). Qed.

Lemma setRequest_accepted members req saved :
  forallb setMemberOK members = true →
  foldl setRequestMember (req, saved) members
  = ({| setKey := stringOf setRequestFields "key" members (setKey req);
        setValue := boolOf setRequestFields "value" members (setValue req) |},
     saved).
Proof.
  revert req saved. unfold stringOf, boolOf.
  induction members as [|[name v] members IH]; intros req saved Hok.
  - by destruct req.
  - cbn [forallb] in Hok. apply andb_prop in Hok as [Hm Hok].
    cbn [foldl]. unfold setRequestMember at 2. unfold setMemberOK in Hm.
    cbn [fst snd] in *.
    destruct (lookupField setRequestFields name) as [f|] eqn:Ef.
    + apply lookupField_set in Ef as [-> | ->];
        change (String.eqb "key" "key") with true in *;
        change (String.eqb "value" "key") with false in *;
        change (String.eqb "value" "value") with true;
        change (String.eqb "key" "value") with false;
        cbv iota in Hm |- *;
        destruct v; try discriminate Hm; cbn [storeString storeBool];
        rewrite IH by done; cbn [setKey setValue]; by destruct saved.
    + by rewrite IH.
Qed.

Lemma setRequest_rejected members req saved :
  forallb setMemberOK members = false →
  ∃ req' e, foldl setRequestMember (req, saved) members = (req', Some e).
Proof.
  revert req saved.
  induction members as [|[name v] members IH]; intros req saved Hok;
    [discriminate|].
  cbn [forallb] in Hok. cbn [foldl].
  destruct (setMemberOK (name, v)) eqn:Hm.
  - destruct (setRequestMember (req, saved) (name, v)). by apply IH.
  - unfold setRequestMember at 2. unfold setMemberOK in Hm. cbn [fst snd] in Hm.
    destruct (lookupField setRequestFields name) as [f|]; [|discriminate].
    destruct (String.eqb f "key");
      destruct v; try discriminate Hm; cbn [storeString storeBool];
      destruct saved as [e0|]; cbn [saveError];
      edestruct setRequestMember_keeps_error as [req' H];
      rewrite H; by eexists _, _.
Qed.

(** The two cases of [decodeSetFeatureFlagRequest]. *)
Lemma decodeSet_cases (ctx : Context) (r : Request) :
  ∃ e,
    decodeSetFeatureFlagRequest ctx r
    = if bodyOK setMemberOK (Body r)
      then (anySetRequest
              {| setKey := stringOf setRequestFields "key" (membersOf (Body r)) "";
                 setValue := boolOf setRequestFields "value" (membersOf (Body r)) false |},
            nilError)
      else (anyNil, Some e).
Proof.
  unfold decodeSetFeatureFlagRequest, Decode, unmarshalInto.
  destruct (Body r) as [| |v]; cbn [bodyOK membersOf];
    [by exists ErrEOF|by exists ErrSyntax|].
  destruct v; cbn [bodyOK membersOf];
    try (eexists; reflexivity); [by exists ErrEOF|].
  destruct (forallb setMemberOK members) eqn:Hok.
  - exists ErrEOF. by rewrite (setRequest_accepted members _ _ Hok).
  - destruct (setRequest_rejected members {| setKey := ""; setValue := false |}
                nilError Hok) as (req' & e & H).
    exists e. by rewrite H.
Qed.

(** X8 (what "set" bodies are accepted).  [decodeSetFeatureFlagRequest]
    succeeds exactly on the body [null] and on the objects in which every
    member that goes to [Key] is a string or [null] and every member that
    goes to [Value] is a boolean or [null]; other members are ignored.  The
    request it returns has the string of the last [Key] member and the
    boolean of the last [Value] member, the empty key and [false] when there
    is none.  Every other body gives [nil] and an error. *)
Theorem decode_set_accepts (ctx : Context) (r : Request) :
  ∃ e,
    decodeSetFeatureFlagRequest ctx r
    = if bodyOK setMemberOK (Body r)
      then (anySetRequest
              {| setKey := stringOf setRequestFields "key" (membersOf (Body r)) "";
                 setValue := boolOf setRequestFields "value" (membersOf (Body r)) false |},
            nilError)
      else (anyNil, Some e).
Proof. exact (decodeSet_cases ctx r). Qed.


End Decoders.

(** ** The server as [main] wires it *)

(** The methods of the recording service. *)
Lemma spy_get ctx key (st : Spy.state) :
  GetFeatureFlag (FeatureFlagService := Spy.service) ctx key st
  = Spy.lift (FlagStore.CallGet ctx key) (FlagStore.GetFeatureFlag ctx key) st.
Proof. reflexivity. Qed.

Lemma spy_set ctx key value (st : Spy.state) :
  SetFeatureFlag (FeatureFlagService := Spy.service) ctx key value st
  = Spy.lift (FlagStore.CallSet ctx key value)
      (FlagStore.SetFeatureFlag ctx key value) st.
Proof. reflexivity. Qed.

Section Server.
Import JSON Transport Decoded FlagStore.

(** A "get" request that the decoder accepts is answered with the value
    stored under its key, and the store stays as it is. *)
Lemma serve_get_accepted ctx r m req :
  decodeGetFeatureFlagRequest ctx r = (anyGetRequest req, nilError) →
  ServeHTTP (getFeatureFlagHandler featureFlagService_FeatureFlagService) ctx r
    (store m)
  = Return (Written 200 (Object [("value", Bool (default false (m !! getKey req)))]))
           (store m).
Proof.
  intros H. unfold ServeHTTP, getFeatureFlagHandler. cbn [dec e enc]. rewrite H.
  unfold nilError, makeGetFeatureFlagEndpoint, assertGetRequest.
  unfold mbind, M_bind, Go.bind, mret, M_ret, Go.ret.
  cbn [GetFeatureFlag featureFlagService_FeatureFlagService].
  by rewrite get_store.
Qed.

(** A "set" request that the decoder accepts is answered with success, and
    the store holds its value under its key. *)
Lemma serve_set_accepted ctx r m req :
  decodeSetFeatureFlagRequest ctx r = (anySetRequest req, nilError) →
  ServeHTTP (setFeatureFlagHandler featureFlagService_FeatureFlagService) ctx r
    (store m)
  = Return (Written 200 (Object [("success", Bool true)]))
           (store (<[setKey req := setValue req]> m)).
Proof.
  intros H. unfold ServeHTTP, setFeatureFlagHandler. cbn [dec e enc]. by rewrite H.
Qed.


(** X11 (a flag set over HTTP is read back over HTTP).  On any store, the
    request [/set] with [{"key":k,"value":v}] followed by the request [/get]
    with [{"key":k}] is answered [{"success":true}] and then [{"value":v}],
    for every key and value. *)
Theorem http_set_then_get (ctx ctx' : Context) (m : gmap string bool)
    (key : string) (value : bool) :
  (r1 ← DefaultServeMux featureFlagService_FeatureFlagService ctx
          {| Path := "/set";
             Body := BodyJSON (Object [("key", String key); ("value", Bool value)]) |};
   r2 ← DefaultServeMux featureFlagService_FeatureFlagService ctx'
          {| Path := "/get"; Body := BodyJSON (Object [("key", String key)]) |};
   mret [r1; r2]) (store m)
  = Return [Written 200 (Object [("success", Bool true)]);
            Written 200 (Object [("value", Bool value)])]
           (store (<[key := value]> m)).
Proof.
  unfold mbind, M_bind, Go.bind, mret, M_ret, Go.ret, DefaultServeMux.
  cbn [Path].
  change (String.eqb "/set" "/get") with false.
  change (String.eqb "/set" "/set") with true.
  change (String.eqb "/get" "/get") with true. cbv iota.
  rewrite (serve_set_accepted ctx
             {| Path := "/set";
                Body := BodyJSON (Object [("key", String key); ("value", Bool value)]) |}
             m {| setKey := key; setValue := value |} eq_refl).
  cbn [setKey setValue].
  rewrite (serve_get_accepted ctx'
             {| Path := "/get"; Body := BodyJSON (Object [("key", String key)]) |}
             (<[key := value]> m) {| getKey := key |} eq_refl).
  cbn [getKey]. by rewrite lookup_insert_eq.
Qed.

(** X15 (each route calls its own method, once at most).  In whatever
    state the store is, when the [/get] handler is done the service has
    been called not at all or once, with [GetFeatureFlag]; when the [/set]
    handler is done it has been called not at all or once, with
    [SetFeatureFlag].  The log of the recording service shows it. *)
Theorem routes_call_own_method (ctx : Context) (r : Request)
    (s : featureFlagService) (log : list Call) :
  match ServeHTTP (getFeatureFlagHandler Spy.service) ctx r (s, log) with
  | Return _ (_, log') | Panic _ (_, log') =>
      log' = log ∨ ∃ key, log' = log ++ [CallGet ctx key]
  | _ => True
  end
  ∧ match ServeHTTP (setFeatureFlagHandler Spy.service) ctx r (s, log) with
    | Return _ (_, log') | Panic _ (_, log') =>
        log' = log ∨ ∃ key value, log' = log ++ [CallSet ctx key value]
    | _ => True
    end.
Proof.
  split.
  - unfold ServeHTTP, getFeatureFlagHandler. cbn [dec e enc].
    destruct (decodeGet_cases ctx r) as [err ->].
    destruct (bodyOK getMemberOK (Body r)); [|by left].
    unfold nilError, makeGetFeatureFlagEndpoint, assertGetRequest.
    unfold mbind, M_bind, Go.bind, mret, M_ret, Go.ret.
    cbn [getKey]. rewrite spy_get. unfold Spy.lift.
    match goal with
    | |- context [FlagStore.GetFeatureFlag ctx ?k s] =>
        destruct (FlagStore.GetFeatureFlag ctx k s) as [[v e0] s'|msg s'|msg|]
    end; try done; right; by eexists.
  - unfold ServeHTTP, setFeatureFlagHandler. cbn [dec e enc].
    destruct (decodeSet_cases ctx r) as [err ->].
    destruct (bodyOK setMemberOK (Body r)); [|by left].
    unfold nilError, makeSetFeatureFlagEndpoint, assertSetRequest.
    unfold mbind, M_bind, Go.bind, mret, M_ret, Go.ret.
    cbn [setKey setValue]. rewrite spy_set. unfold Spy.lift.
    match goal with
    | |- context [FlagStore.SetFeatureFlag ctx ?k ?v s] =>
        destruct (FlagStore.SetFeatureFlag ctx k v s) as [e0 s'|msg s'|msg|]
    end; try done; right; by eexists _, _.
Qed.

End Server.

(** ** Handlers never wait for ever *)

Section Progress.
Import FlagStore Concurrent.

Implicit Types (f : pc → bool) (l : list pc) (p q : pc) (w : world).

Lemma tally_positive f l :
  0 < tally f l → ∃ j q, l !! j = Some q ∧ f q = true.
Proof.
  induction l as [|p l IH]; cbn [tally]; [lia|]. intros H.
  destruct (f p) eqn:E.
  - by exists 0, p.
  - cbn [bit] in H. destruct (IH ltac:(lia)) as (j & q & Hj & Hq).
    by exists (S j), q.
Qed.

(** A handler that is inside a locked section can always take its next
    step: neither a map operation nor an unlock waits. *)
Lemma inside_enabled q (s : featureFlagService) :
  reading q || writing q = true → ∃ q' s', thread_step q s = Some (q', s').
Proof.
  destruct s as [fl [n ws]].
  destruct q; try discriminate; intros _; cbn [thread_step];
    unfold after, flags_index, mu_RUnlock, mu_Unlock, flags_assign_begin,
      flags_assign_end, Go.RUnlock, Go.Unlock, mapaccess, mapassign_begin,
      mapassign_end;
    cbn [flags mu readerCount writer].
  - destruct fl as [[[] bk]|]; cbn [hashWriting buckets fail];
      try (by eexists _, _). destruct (bk !! key); by eexists _, _.
  - destruct n; by eexists _, _.
  - destruct n; by eexists _, _.
  - destruct fl as [[[] bk]|]; cbn [hashWriting buckets fail]; by eexists _, _.
  - destruct fl as [[[] bk]|]; cbn [hashWriting buckets fail]; by eexists _, _.
  - destruct ws; by eexists _, _.
  - destruct ws; by eexists _, _.
Qed.

(** With a writer announced, either it gets the lock or a reader that is
    still inside moves on. *)
Lemma pending_enabled w :
  invariant w → writer (mu (svc w)) = WriterPending →
  ∃ j q q' s', threads w !! j = Some q ∧ thread_step q (svc w) = Some (q', s').
Proof.
  intros [Hr Hq Hw Hx _ Hp] Hws.
  rewrite Hws in Hq. cbn [isPending bit] in Hq.
  destruct (readerCount (mu (svc w))) as [|n] eqn:En.
  - destruct (tally_positive pending (threads w) ltac:(lia)) as (j & q & Hj & Hpq).
    destruct q; try discriminate Hpq.
    exists j, (SetPending key value). eexists _, _. split; [exact Hj|].
    cbn [thread_step]. unfold after, mu_Lock_acquire, Go.Lock_acquire.
    by rewrite Hws, En.
  - destruct (tally_positive reading (threads w) ltac:(lia)) as (j & q & Hj & Hrq).
    destruct (inside_enabled q (svc w)) as (q' & s' & Hstep); [by rewrite Hrq|].
    by exists j, q, q', s'.
Qed.

(** As long as some handler has not returned, some handler can take a
    step. *)
Lemma handler_enabled w i p :
  reachable w →
  threads w !! i = Some p → finished p = false →
  ∃ j q q' s', threads w !! j = Some q ∧ thread_step q (svc w) = Some (q', s').
Proof.
  intros Hreach Hi Hfin.
  pose proof (reachable_invariant w Hreach) as Hinv.
  destruct (reading p || writing p) eqn:Hin.
  { destruct (inside_enabled p (svc w) Hin) as (q' & s' & Hstep).
    by exists i, p, q', s'. }
  destruct (writer (mu (svc w))) eqn:Hws.
  - (* no writer: the handler itself moves *)
    pose proof (inv_readers w Hinv) as Hr.
    pose proof (inv_pending w Hinv) as Hq. rewrite Hws in Hq.
    pose proof (inv_sound w Hinv) as Hp.
    pose proof (tally_lookup pending _ _ _ Hi) as Hpi.
    pose proof (tally_lookup panicking _ _ _ Hi) as Hpp.
    exists i, p.
    destruct p; try discriminate; cbn [pending panicking isPending bit] in *;
      try lia; cbn [thread_step];
      unfold after, mu_RLock, mu_Lock_announce, Go.RLock, Go.Lock_announce;
      rewrite Hws; by eexists _, _.
  - by apply pending_enabled.
  - (* a writer inside: it moves *)
    pose proof (inv_writer w Hinv) as Hw. rewrite Hws in Hw. cbn [isHeld bit] in Hw.
    destruct (tally_positive writing (threads w) ltac:(lia)) as (j & q & Hj & Hwq).
    destruct (inside_enabled q (svc w)) as (q' & s' & Hstep).
    { rewrite Hwq. apply orb_true_r. }
    by exists j, q, q', s'.
Qed.

(** X12 (no deadlock).  In every state that the process can reach, as long
    as some request has not been answered, some handler can take its next
    step: the handlers never all wait for each other. *)
Theorem no_deadlock w i p :
  reachable w →
  threads w !! i = Some p → finished p = false →
  ∃ j q q' s',
    threads w !! j = Some q
    ∧ thread_step q (svc w) = Some (q', s')
    ∧ step w {| svc := s'; threads := <[j := q']> (threads w) |}.
Proof.
  intros Hreach Hi Hfin.
  destruct (handler_enabled w i p Hreach Hi Hfin) as (j & q & q' & s' & Hj & Hs).
  exists j, q, q', s'. split; [exact Hj|]. split; [exact Hs|].
  by apply (step_handler w j q q' s' (reachable_alive w Hreach)).
Qed.

End Progress.

Section Completion.
Import FlagStore Concurrent.

Implicit Types (l : list pc) (p q : pc) (w : world).

(** A state with a writer inside and a reader at the door. *)
Lemma writer_inside_reachable :
  reachable
    {| svc := {| flags := make;
                 mu := {| readerCount := 0; writer := WriterHeld |} |};
       threads := [SetLocked "beta" true; GetEntry "beta"] |}.
Proof.
  pose (w1 := {| svc := newService; threads := [SetEntry "beta" true] |}).
  pose (w2 := {| svc := newService;
                 threads := [SetEntry "beta" true; GetEntry "beta"] |}).
  pose (w3 := {| svc := {| flags := make;
                           mu := {| readerCount := 0; writer := WriterPending |} |};
                 threads := [SetPending "beta" true; GetEntry "beta"] |}).
  apply (reachable_step w3).
  - apply (reachable_step w2).
    + apply (reachable_step w1).
      * apply (reachable_step init _ reachable_init
                 (step_request init (CallSet Background "beta" true) eq_refl)).
      * apply (step_request w1 (CallGet Background "beta") eq_refl).
    + apply (step_handler w2 0 (SetEntry "beta" true) (SetPending "beta" true));
        reflexivity.
  - apply (step_handler w3 0 (SetPending "beta" true) (SetLocked "beta" true));
      reflexivity.
Qed.

Lemma no_deadlock_witness :
  let w := {| svc := {| flags := make;
                        mu := {| readerCount := 0; writer := WriterHeld |} |};
              threads := [SetLocked "beta" true; GetEntry "beta"] |} in
  thread_step (GetEntry "beta") (svc w) = None
  ∧ ∃ j q q' s',
      threads w !! j = Some q
      ∧ thread_step q (svc w) = Some (q', s')
      ∧ step w {| svc := s'; threads := <[j := q']> (threads w) |}.
Proof.
  intros w. split; [reflexivity|].
  apply (no_deadlock w 1 (GetEntry "beta") writer_inside_reachable);
    reflexivity.
Defined.

(** A step that does not end in a panic brings the handler one step closer
    to its return. *)
Lemma step_closer q q' (s s' : featureFlagService) :
  thread_step q s = Some (q', s') → panicking q' = false →
  remaining q = S (remaining q').
Proof.
  destruct q; cbn [thread_step]; unfold after; intros H Hp;
    repeat match type of H with
           | context [match ?c s with _ => _ end] => destruct (c s) as [[]| | |]
           | context [match ?c s with _ => _ end] => destruct (c s) as [| | |]
           end;
    try discriminate H; injection H as <- _; try discriminate Hp; reflexivity.
Qed.

Lemma work_insert l j q q' :
  l !! j = Some q →
  work (<[j := q']> l) + remaining q = work l + remaining q'.
Proof.
  unfold work. revert j. induction l as [|p l IH]; intros j Hj; [done|].
  destruct j as [|j]; cbn in Hj.
  - injection Hj as ->.
    change (<[0 := q']> (q :: l)) with (q' :: l). cbn [foldr]. lia.
  - change (<[S j := q']> (p :: l)) with (p :: <[j := q']> l).
    cbn [foldr]. specialize (IH j Hj). lia.
Qed.

(** Work that is left is the work of a handler that has not returned. *)
Lemma work_positive l :
  0 < work l → ∃ i p, l !! i = Some p ∧ finished p = false.
Proof.
  unfold work. induction l as [|p l IH]; cbn [foldr]; [lia|]. intros H.
  destruct (finished p) eqn:E.
  - destruct p; try discriminate E. cbn [remaining] in H.
    destruct (IH H) as (i & q & Hi & Hq). by exists (S i), q.
  - by exists 0, p.
Qed.

Lemma work_done l :
  work l = 0 → tally panicking l = 0 → Forall (fun p => finished p = true) l.
Proof.
  unfold work.
  induction l as [|p l IH]; cbn [foldr tally]; intros Hw Hp; [constructor|].
  constructor.
  - destruct p; cbn [remaining panicking bit finished] in *; done || lia.
  - apply IH; lia.
Qed.

Lemma drains_reachable w w' : drains w w' → reachable w → reachable w'.
Proof.
  induction 1 as [|w i p p' s' w' Ha Hi Hs _ IH]; [done|]. intros Hw.
  apply IH, (reachable_step w); [done|]. by apply (step_handler w i p p' s').
Qed.

Lemma drains_length w w' :
  drains w w' → length (threads w') = length (threads w).
Proof.
  induction 1 as [|w i p p' s' w' Ha Hi Hs _ IH]; [done|].
  rewrite IH. cbn [threads]. apply length_insert.
Qed.

Lemma handlers_drain n w :
  reachable w → work (threads w) = n →
  ∃ w', drains w w' ∧ Forall (fun p => finished p = true) (threads w').
Proof.
  revert w. induction n as [|n IH]; intros w Hreach Hn.
  - exists w. split; [constructor|].
    apply work_done; [done|]. apply (inv_sound w), reachable_invariant, Hreach.
  - destruct (work_positive (threads w) ltac:(lia)) as (i & p & Hi & Hfin).
    destruct (handler_enabled w i p Hreach Hi Hfin) as (j & q & q' & s' & Hj & Hs).
    pose proof (reachable_alive w Hreach) as Ha.
    set (w1 := {| svc := s'; threads := <[j := q']> (threads w) |}).
    assert (reachable w1) as Hreach1.
    { apply (reachable_step w); [done|]. by apply (step_handler w j q q' s'). }
    assert (panicking q' = false) as Hq'.
    { pose proof (inv_sound w1 (reachable_invariant w1 Hreach1)) as Hp.
      assert (threads w1 !! j = Some q') as Hj1.
      { apply list_lookup_insert_eq, (lookup_lt_Some _ _ _ Hj). }
      pose proof (tally_lookup panicking _ _ _ Hj1) as Hle.
      destruct (panicking q'); [cbn [bit] in Hle; lia|done]. }
    pose proof (step_closer q q' _ _ Hs Hq') as Hrem.
    pose proof (work_insert (threads w) j q q' Hj) as Hwork.
    destruct (IH w1 Hreach1 ltac:(cbn [threads w1]; lia)) as (w' & Hd & Hall).
    exists w'. split; [|done]. by apply (drains_step w j q q' s').
Qed.

(** X13 (every request in flight can be answered).  From every state that
    the process can reach, the handlers that are there can run, with no
    further request arriving, until each of them has returned; nobody
    panics on the way, and at the end nobody holds or awaits the lock. *)
Theorem handlers_can_finish w :
  reachable w →
  ∃ w',
    drains w w'
    ∧ reachable w'
    ∧ length (threads w') = length (threads w)
    ∧ Forall (fun p => finished p = true) (threads w')
    ∧ mu (svc w') = zeroRWMutex.
Proof.
  intros Hreach.
  destruct (handlers_drain _ w Hreach eq_refl) as (w' & Hd & Hall).
  pose proof (drains_reachable w w' Hd Hreach) as Hreach'.
  exists w'. split; [done|]. split; [done|].
  split; [by apply drains_length|]. split; [done|].
  destruct (reachable_invariant w' Hreach') as [Hr Hq Hw _ _ _].
  assert (∀ f, (∀ p, finished p = true → f p = false) →
               tally f (threads w') = 0) as Hzero.
  { intros f Hf. clear -Hall Hf.
    induction Hall as [|p l Hp _ IH]; [done|].
    cbn [tally]. by rewrite (Hf p Hp), IH. }
  rewrite (Hzero reading) in Hr by (by intros []).
  rewrite (Hzero pending) in Hq by (by intros []).
  rewrite (Hzero writing) in Hw by (by intros []).
  destruct (mu (svc w')) as [n ws]. cbn [readerCount writer] in *.
  subst n. by destruct ws.
Qed.

Lemma handlers_can_finish_witness :
  let w := {| svc := {| flags := make;
                        mu := {| readerCount := 0; writer := WriterHeld |} |};
              threads := [SetLocked "beta" true; GetEntry "beta"] |} in
  ∃ w',
    drains w w'
    ∧ reachable w'
    ∧ length (threads w') = length (threads w)
    ∧ Forall (fun p => finished p = true) (threads w')
    ∧ mu (svc w') = zeroRWMutex.
Proof.
  intros w. apply (handlers_can_finish w writer_inside_reachable).
Defined.

End Completion.
